(** * Verification of the competition-results extractor

    Shallow embedding of [parsePDF] (server/services/pdfParser.ts): the
    splitting of the document text into lines, the regular expressions the
    function applies to them, the two athlete passes and the assembly of
    the returned [ParsedCompetitionData].

    JavaScript strings are sequences of UTF-16 code units, so a string is
    modelled as a list of code units ([N]).  The regular-expression
    literals of the source are values of a small abstract syntax, run by a
    backtracking matcher with the leftmost/priority/greedy discipline of
    [String.prototype.match].

    Around the extractor the development also embeds [cleanupFile], the
    season statistics of storage.ts, the statistics and previews of the
    client pages, the login strategy of auth.ts, the mail service and the
    two route handlers that call the extractor and the mail service.
    Calls to the outside world are recorded in a trace. *)

From Stdlib Require Import String Ascii.
From Stdlib Require Import List Bool Arith NArith ZArith Lia Permutation.
Import ListNotations.

Set Implicit Arguments.

(* ================================================================== *)
(** ** JavaScript strings *)

Module JS.

(** A UTF-16 code unit. *)
Definition cu := N.

(** A JavaScript string value. *)
Definition jsstring := list cu.

(** ASCII literals of the source, as code-unit sequences. *)
Definition str (s : string) : jsstring :=
  map N_of_ascii (list_ascii_of_string s).

(** The code unit of a one-character ASCII literal. *)
Definition chr (a : ascii) : cu := N_of_ascii a.

Definition cu_eqb (a b : cu) : bool := N.eqb a b.

Fixpoint jsstring_eqb (a b : jsstring) : bool :=
  match a, b with
  | [], [] => true
  | x :: a', y :: b' => cu_eqb x y && jsstring_eqb a' b'
  | _, _ => false
  end.

(** [\d] : the ten ASCII digits. *)
Definition isDigit (c : cu) : bool := (48 <=? c)%N && (c <=? 57)%N.

(** [[A-Z]] and [[a-z]]. *)
Definition isUpper (c : cu) : bool := (65 <=? c)%N && (c <=? 90)%N.
Definition isLower (c : cu) : bool := (97 <=? c)%N && (c <=? 122)%N.

(** ECMAScript WhiteSpace and LineTerminator code points: the set matched
    by [\s] and stripped by [String.prototype.trim]. *)
Definition isWhiteSpace (c : cu) : bool :=
  ((9 <=? c) && (c <=? 13) ||
   (c =? 32) || (c =? 160) || (c =? 5760) ||
   (8192 <=? c) && (c <=? 8202) ||
   (c =? 8232) || (c =? 8233) || (c =? 8239) || (c =? 8287) ||
   (c =? 12288) || (c =? 65279))%N.

(** A literal ASCII letter under the [i] flag: both cases of the letter
    (no code unit above 127 canonicalizes to an ASCII letter when the [u]
    flag is absent). *)
Definition isLetterI (a : ascii) (c : cu) : bool :=
  let l := chr a in
  (c =? l)%N ||
  (if isLower l then (c =? l - 32)%N
   else if isUpper l then (c =? l + 32)%N else false).

(** [s.split(sep)] for a one-unit separator: always at least one piece. *)
Fixpoint split (sep : cu) (s : jsstring) : list jsstring :=
  match s with
  | [] => [[]]
  | c :: s' =>
      if cu_eqb c sep then [] :: split sep s'
      else match split sep s' with
           | l :: ls => (c :: l) :: ls
           | [] => [[c]]
           end
  end.

(** [a || b] on strings: the empty string is the only falsy one. *)
Definition orElse (a b : jsstring) : jsstring :=
  match a with
  | [] => b
  | _ :: _ => a
  end.

(** [s.trimStart()], [s.trimEnd()] and [s.trim()]. *)
Fixpoint trimStart (s : jsstring) : jsstring :=
  match s with
  | c :: s' => if isWhiteSpace c then trimStart s' else s
  | [] => []
  end.

Definition trimEnd (s : jsstring) : jsstring := rev (trimStart (rev s)).

Definition trim (s : jsstring) : jsstring := trimEnd (trimStart s).

(** The result of [parseInt] on a non-empty run of decimal digits.  The
    mathematical value is exact as a Number up to 2^53; above it the
    Number is the nearest double, which is recorded without being
    computed. *)
Inductive number : Type :=
| Int (n : N)
| Rounded (n : N).

Definition digitsValue (s : jsstring) : N :=
  fold_left (fun acc c => (10 * acc + (c - 48))%N) s 0%N.

Definition parseIntDigits (s : jsstring) : number :=
  let v := digitsValue s in
  if (v <=? 9007199254740992)%N then Int v else Rounded v.

End JS.

Import JS.

(* ================================================================== *)
(** ** Regular expressions *)

Module Regex.

(** The fragment of the pattern language the source uses: character
    classes, greedy quantifiers over a class, concatenation, alternation,
    numbered capture groups. *)
Inductive regex : Type :=
| Eps
| Cls (p : cu -> bool)
| Rep (p : cu -> bool) (lo : nat) (hi : option nat)
| Seq (r1 r2 : regex)
| Alt (r1 r2 : regex)
| Grp (n : nat) (r : regex).

(** Captures: group number and captured text, latest first. *)
Definition captures := list (nat * jsstring).

Definition mayTakeMore (hi : option nat) : bool :=
  match hi with
  | Some 0 => false
  | _ => true
  end.

Section Matcher.
Variable A : Type.

(** The continuation receives the unread input and the captures. *)
Definition cont := jsstring -> captures -> option A.

(** Greedy [p{lo,hi}] : take one more unit when allowed and come back to
    stopping here when the rest of the pattern then fails. *)
Fixpoint rep (p : cu -> bool) (lo : nat) (hi : option nat)
         (s : jsstring) (caps : captures) (k : cont) : option A :=
  let stop := match lo with O => k s caps | S _ => None end in
  match s with
  | c :: s' =>
      if p c && mayTakeMore hi then
        match rep p (pred lo) (option_map pred hi) s' caps k with
        | Some a => Some a
        | None => stop
        end
      else stop
  | [] => stop
  end.

(** The text read between an input [s] and its suffix [rest]. *)
Definition consumed (s rest : jsstring) : jsstring :=
  firstn (length s - length rest) s.

(** Backtracking matcher in continuation-passing style: alternatives
    left to right, quantifiers greedy. *)
Fixpoint matchAt (r : regex) (s : jsstring) (caps : captures) (k : cont)
  : option A :=
  match r with
  | Eps => k s caps
  | Cls p =>
      match s with
      | c :: s' => if p c then k s' caps else None
      | [] => None
      end
  | Rep p lo hi => rep p lo hi s caps k
  | Seq r1 r2 =>
      matchAt r1 s caps (fun s' caps' => matchAt r2 s' caps' k)
  | Alt r1 r2 =>
      match matchAt r1 s caps k with
      | Some a => Some a
      | None => matchAt r2 s caps k
      end
  | Grp n r1 =>
      matchAt r1 s caps
              (fun rest caps' => k rest ((n, consumed s rest) :: caps'))
  end.
End Matcher.

(** The match object of [str.match(re)] for a pattern without the [g]
    flag: the matched text ([m[0]]) and the captures. *)
Record matchResult : Type := {
  whole : jsstring;
  groups : captures
}.

Definition accept (s : jsstring) : cont matchResult :=
  fun rest caps => Some {| whole := consumed s rest; groups := caps |}.

(** [s.match(r)] : the match at the first start position that has one,
    [None] for JavaScript's [null]. *)
Fixpoint search (r : regex) (s : jsstring) : option matchResult :=
  match matchAt r s [] (accept s) with
  | Some m => Some m
  | None =>
      match s with
      | [] => None
      | _ :: s' => search r s'
      end
  end.

(** [m[n]] for a group that took part in the match. *)
Fixpoint group (n : nat) (caps : captures) : jsstring :=
  match caps with
  | [] => []
  | (i, w) :: caps' => if Nat.eqb i n then w else group n caps'
  end.

(** Literal characters, without and with the [i] flag. *)
Definition lit (a : ascii) : regex := Cls (cu_eqb (chr a)).
Definition litI (a : ascii) : regex := Cls (isLetterI a).

(** A pattern without capture groups. *)
Fixpoint groupless (r : regex) : bool :=
  match r with
  | Eps | Cls _ | Rep _ _ _ => true
  | Seq r1 r2 | Alt r1 r2 => groupless r1 && groupless r2
  | Grp _ _ => false
  end.

(** Declarative meaning: the texts a pattern matches. *)
Definition withinBounds (lo : nat) (hi : option nat) (n : nat) : Prop :=
  lo <= n /\ match hi with Some h => n <= h | None => True end.

Inductive lang : regex -> jsstring -> Prop :=
| L_Eps : lang Eps []
| L_Cls p c : p c = true -> lang (Cls p) [c]
| L_Rep p lo hi w :
    Forall (fun c => p c = true) w ->
    withinBounds lo hi (length w) ->
    lang (Rep p lo hi) w
| L_Seq r1 r2 w1 w2 : lang r1 w1 -> lang r2 w2 -> lang (Seq r1 r2) (w1 ++ w2)
| L_AltL r1 r2 w : lang r1 w -> lang (Alt r1 r2) w
| L_AltR r1 r2 w : lang r2 w -> lang (Alt r1 r2) w
| L_Grp n r w : lang r w -> lang (Grp n r) w.

(** [s] has an occurrence of the pattern starting after [pre]. *)
Definition occursAt (r : regex) (pre : jsstring) (s : jsstring) : Prop :=
  exists w post, s = pre ++ w ++ post /\ lang r w.

Definition contains (r : regex) (s : jsstring) : Prop :=
  exists pre, occursAt r pre s.

End Regex.

Import Regex.

(* ================================================================== *)
(** ** The clock *)

Module Clock.

(** The UTC fields of a time value, as [new Date()] reads them. *)
Record Date : Type := {
  year : Z;
  month : N;        (* 1 .. 12 *)
  day : N;          (* 1 .. 31 *)
  hours : N;
  minutes : N;
  seconds : N;
  milliseconds : N
}.

(** [n] in decimal, on exactly [width] digits. *)
Fixpoint pad (width : nat) (n : N) : jsstring :=
  match width with
  | O => []
  | S w => pad w (n / 10) ++ [(48 + n mod 10)%N]
  end.

(** Four digits for the years 0 to 9999, a sign and six digits
    otherwise. *)
Definition yearText (y : Z) : jsstring :=
  if ((0 <=? y) && (y <=? 9999))%Z then pad 4 (Z.to_N y)
  else (if (y <? 0)%Z then str "-" else str "+") ++ pad 6 (Z.abs_N y).

(** [Date.prototype.toISOString] : YYYY-MM-DDTHH:mm:ss.sssZ. *)
Definition toISOString (d : Date) : jsstring :=
  yearText (year d) ++ str "-" ++ pad 2 (month d) ++ str "-" ++
  pad 2 (day d) ++ str "T" ++ pad 2 (hours d) ++ str ":" ++
  pad 2 (minutes d) ++ str ":" ++ pad 2 (seconds d) ++ str "." ++
  pad 3 (milliseconds d) ++ str "Z".


End Clock.

Import Clock.

(* ================================================================== *)
(** ** pdfParser.ts *)

Module PdfParser.

(** An element of [ParsedCompetitionData['athletes']].  [None] is an
    optional field that is absent or [undefined]. *)
Record athlete : Type := {
  name : jsstring;
  weightClass : jsstring;
  placement : option number;
  wins : option number;
  losses : option number;
  pins : option number;
  takedowns : option number
}.

Record ParsedCompetitionData : Type := {
  athletes : list athlete;
  competitionName : jsstring;
  date : jsstring;
  results : list jsstring
}.

(** *** The patterns of the source *)

Definition digits (lo : nat) (hi : option nat) : regex := Rep isDigit lo hi.

(** [/\d{1,2}\/\d{1,2}\/\d{2,4}|\d{1,2}-\d{1,2}-\d{2,4}/] *)
Definition dateWith (sep : ascii) : regex :=
  Seq (digits 1 (Some 2))
      (Seq (lit sep)
           (Seq (digits 1 (Some 2)) (Seq (lit sep) (digits 2 (Some 4))))).

Definition dateRe : regex := Alt (dateWith "/") (dateWith "-").

(** [/(\d{2,3})\s*lbs?/i] *)
Definition weightRe : regex :=
  Seq (Grp 1 (digits 2 (Some 3)))
      (Seq (Rep isWhiteSpace 0 None)
           (Seq (litI "l") (Seq (litI "b") (Rep (isLetterI "s") 0 (Some 1))))).

(** [/([A-Z][a-z]+\s+[A-Z][a-z]+)/] *)
Definition capitalized : regex := Seq (Cls isUpper) (Rep isLower 1 None).

Definition nameRe : regex :=
  Grp 1 (Seq capitalized (Seq (Rep isWhiteSpace 1 None) capitalized)).

(** [/(\d+)(st|nd|rd|th)/] *)
Definition placementRe : regex :=
  Seq (Grp 1 (digits 1 None))
      (Grp 2 (Alt (Seq (lit "s") (lit "t"))
                  (Alt (Seq (lit "n") (lit "d"))
                       (Alt (Seq (lit "r") (lit "d"))
                            (Seq (lit "t") (lit "h")))))).

(** [/(\d+)-(\d+)/] *)
Definition recordRe : regex :=
  Seq (Grp 1 (digits 1 None)) (Seq (lit "-") (Grp 2 (digits 1 None))).

(** [/pin|fall/i] *)
Definition pinRe : regex :=
  Alt (Seq (litI "p") (Seq (litI "i") (litI "n")))
      (Seq (litI "f") (Seq (litI "a") (Seq (litI "l") (litI "l")))).

(** [/(\d{2,3})/] *)
Definition fallbackWeightRe : regex := Grp 1 (digits 2 (Some 3)).

(** *** The body of [parsePDF] after the text is read *)

(** [text.split('\n').filter(line => line.trim().length > 0)] ; the
    character ["010"] is the line feed. *)
Definition splitLines (text : jsstring) : list jsstring :=
  filter (fun line => 0 <? length (trim line)) (split (chr "010") text).

(** [lines[i]] for an index in range. *)
Definition lineAt (lines : list jsstring) (i : nat) : jsstring :=
  nth i lines [].

(** The date loop over [lines.slice(0, 10)] : the first match, [''] when
    the loop ends without one. *)
Fixpoint findDate (ls : list jsstring) : jsstring :=
  match ls with
  | [] => []
  | line :: rest =>
      match search dateRe line with
      | Some dateMatch => whole dateMatch
      | None => findDate rest
      end
  end.

(** [athletes.find(a => a.name === d.name && a.weightClass === d.weightClass)] *)
Definition sameKey (d a : athlete) : bool :=
  jsstring_eqb (name a) (name d) &&
  jsstring_eqb (weightClass a) (weightClass d).

(** The body of the inner loop: one line of the window. *)
Definition scanResultLine (weightClass : jsstring) (athletes : list athlete)
           (resultLine : jsstring) : list athlete :=
  let nameMatch := search nameRe resultLine in
  let placementMatch := search placementRe resultLine in
  let recordMatch := search recordRe resultLine in
  let pinMatch := search pinRe resultLine in
  match nameMatch with
  | Some nm =>
      let athleteData :=
        {| name := group 1 (groups nm);
           weightClass := weightClass;
           placement :=
             option_map (fun m => parseIntDigits (group 1 (groups m)))
                        placementMatch;
           wins :=
             option_map (fun m => parseIntDigits (group 1 (groups m)))
                        recordMatch;
           losses :=
             option_map (fun m => parseIntDigits (group 2 (groups m)))
                        recordMatch;
           pins := Some (match pinMatch with Some _ => Int 1 | None => Int 0 end);
           takedowns := Some (Int 0) |} in
      match find (sameKey athleteData) athletes with
      | Some existing => athletes
      | None => athletes ++ [athleteData]
      end
  | None => athletes
  end.

(** The values of [j] in
    [for (let j = i + 1; j < Math.min(i + 10, lines.length); j++)]. *)
Definition windowIndices (i len : nat) : list nat :=
  seq (i + 1) (Nat.min (i + 10) len - (i + 1)).

(** The lines the inner loop reads for the index [i]. *)
Definition windowLines (lines : list jsstring) (i : nat) : list jsstring :=
  map (lineAt lines) (windowIndices i (length lines)).

(** The body of the outer loop at index [i]. *)
Definition primaryStep (lines : list jsstring) (athletes : list athlete)
           (i : nat) : list athlete :=
  let line := lineAt lines i in
  match search weightRe line with
  | Some weightMatch =>
      let weightClass := group 1 (groups weightMatch) ++ str " lbs" in
      fold_left
        (fun acc j => scanResultLine weightClass acc (lineAt lines j))
        (windowIndices i (length lines)) athletes
  | None => athletes
  end.

(** [for (let i = 0; i < lines.length; i++)] from an empty array. *)
Definition primaryPass (lines : list jsstring) : list athlete :=
  fold_left (primaryStep lines) (seq 0 (length lines)) [].

(** The body of the fallback loop. *)
Definition fallbackStep (athletes : list athlete) (line : jsstring)
  : list athlete :=
  match search nameRe line, search fallbackWeightRe line with
  | Some nameMatch, Some weightMatch =>
      athletes ++
      [{| name := group 1 (groups nameMatch);
          weightClass := group 1 (groups weightMatch) ++ str " lbs";
          placement := None; wins := None; losses := None;
          pins := None; takedowns := None |}]
  | _, _ => athletes
  end.

Definition fallbackPass (lines : list jsstring) (athletes : list athlete)
  : list athlete :=
  fold_left fallbackStep lines athletes.

(** [new Date().toISOString().split('T')[0]] *)
Definition today (now : Date) : jsstring :=
  hd [] (split (chr "T") (toISOString now)).

(** Everything between the computation of [lines] and the [return]. *)
Definition extractLines (now : Date) (lines : list jsstring)
  : ParsedCompetitionData :=
  let competitionName :=
    match lines with
    | [] => []
    | first :: _ => trim first
    end in
  let date := findDate (firstn 10 lines) in
  let athletes := primaryPass lines in
  let athletes :=
    if length athletes =? 0 then fallbackPass lines athletes else athletes in
  {| athletes := athletes;
     competitionName := orElse competitionName (str "Wrestling Competition");
     date := orElse date (today now);
     results := lines |}.

(** The extraction of the document text, at clock reading [now]. *)
Definition extract (now : Date) (text : jsstring) : ParsedCompetitionData :=
  extractLines now (splitLines text).

(** *** Reading the document *)

(** A thrown value: an [Error] with its message, or anything else with
    its [String(...)] conversion. *)
Inductive thrown : Type :=
| ErrorObject (message : jsstring)
| OtherValue (asString : jsstring).

Inductive outcome (A : Type) : Type :=
| Returned (a : A)
| Threw (e : thrown).

Arguments Returned {A} a.
Arguments Threw {A} e.

(** The [catch] block: [error instanceof Error ? error.message : String(error)]
    behind the fixed prefix, thrown as a new [Error]. *)
Definition rethrow (error : thrown) : thrown :=
  ErrorObject
    (str "Failed to parse PDF file: " ++
     match error with
     | ErrorObject message => message
     | OtherValue asString => asString
     end).

Section ParsePDF.
Variable Buffer : Type.
(** [fs.readFileSync] and the [pdf-parse] converter ([data.text]). *)
Variable readFileSync : jsstring -> outcome Buffer.
Variable pdf : Buffer -> outcome jsstring.

Definition parsePDF (now : Date) (filePath : jsstring)
  : outcome ParsedCompetitionData :=
  match readFileSync filePath with
  | Threw error => Threw (rethrow error)
  | Returned dataBuffer =>
      match pdf dataBuffer with
      | Threw error => Threw (rethrow error)
      | Returned text => Returned (extract now text)
      end
  end.
End ParsePDF.

End PdfParser.

Import PdfParser.


(* ================================================================== *)
(** ** Shapes of texts and records *)

Module Shapes.

(** [w] occurs in [line] as a run of consecutive code units. *)
Definition occurs (P : jsstring -> Prop) (line : jsstring) : Prop :=
  exists pre w post, line = pre ++ w ++ post /\ P w.

Definition allOf (p : cu -> bool) (w : jsstring) : Prop :=
  Forall (fun c => p c = true) w.

(** One ASCII capital followed by one or more ASCII small letters. *)
Definition isCapitalizedWord (w : jsstring) : Prop :=
  exists c rest,
    w = c :: rest /\ isUpper c = true /\ rest <> [] /\ allOf isLower rest.

(** Two capitalized words separated by a non-empty run of whitespace. *)
Definition isFullName (w : jsstring) : Prop :=
  exists first gap last,
    w = first ++ gap ++ last /\
    isCapitalizedWord first /\ gap <> [] /\ allOf isWhiteSpace gap /\
    isCapitalizedWord last.

(** [D/D/Y] or [D-D-Y] : one or two digits, twice, then two to four. *)
Definition isNumericDate (w : jsstring) : Prop :=
  exists sep a b y,
    w = a ++ [sep] ++ b ++ [sep] ++ y /\
    (sep = chr "/" \/ sep = chr "-") /\
    allOf isDigit a /\ 1 <= length a <= 2 /\
    allOf isDigit b /\ 1 <= length b <= 2 /\
    allOf isDigit y /\ 2 <= length y <= 4.

(** Two or three digits, any whitespace, then "lb" in either case and
    an optional "s" in either case. *)
Definition isWeightMarker (w : jsstring) : Prop :=
  exists d gap l b s,
    w = d ++ gap ++ [l; b] ++ s /\
    allOf isDigit d /\ 2 <= length d <= 3 /\
    allOf isWhiteSpace gap /\
    (l = chr "l" \/ l = chr "L") /\ (b = chr "b" \/ b = chr "B") /\
    (s = [] \/ s = [chr "s"] \/ s = [chr "S"]).

(** The weight marker in the words of the specification: one to three
    digits, then nothing, "lb" or "lbs" in either case (whitespace
    allowed before the suffix, as in "152 lbs"). *)
Definition isWeightMarkerAsSpecified (w : jsstring) : Prop :=
  exists d gap suffix,
    w = d ++ gap ++ suffix /\
    allOf isDigit d /\ 1 <= length d <= 3 /\
    allOf isWhiteSpace gap /\
    (suffix = [] \/
     exists l b s,
       suffix = [l; b] ++ s /\
       (l = chr "l" \/ l = chr "L") /\ (b = chr "b" \/ b = chr "B") /\
       (s = [] \/ s = [chr "s"] \/ s = [chr "S"])).

(** The window in the words of the specification: the ten lines that
    follow line [i]. *)
Definition windowAsSpecified (lines : list jsstring) (i : nat)
  : list jsstring :=
  firstn 10 (skipn (S i) lines).

(** A weight class as both passes write it: two or three digits and
    " lbs". *)
Definition isWeightClass (w : jsstring) : Prop :=
  exists d, w = d ++ str " lbs" /\ allOf isDigit d /\ 2 <= length d <= 3.

(** The key de-duplication compares. *)
Definition key (a : athlete) : jsstring * jsstring := (name a, weightClass a).

(** A record as the primary pass builds it, and as the fallback does. *)
Definition isPrimaryRecord (a : athlete) : Prop :=
  isFullName (name a) /\
  (pins a = Some (Int 0) \/ pins a = Some (Int 1)) /\
  takedowns a = Some (Int 0).

Definition isFallbackRecord (a : athlete) : Prop :=
  isFullName (name a) /\
  placement a = None /\ wins a = None /\ losses a = None /\
  pins a = None /\ takedowns a = None.

(** A run of two or three digits. *)
Definition isWeightNumber (w : jsstring) : Prop :=
  allOf isDigit w /\ 2 <= length w <= 3.




End Shapes.

Import Shapes.

(* ================================================================== *)
(** ** Sample inputs *)

Module Samples.

(** [pieces.join('\n')] *)
Fixpoint joinLines (pieces : list jsstring) : jsstring :=
  match pieces with
  | [] => []
  | [p] => p
  | p :: rest => p ++ chr "010" :: joinLines rest
  end.

(** 14 March 2024, 09:05:07.042 UTC, and the same time a day later. *)
Definition clockA : Date :=
  {| year := 2024; month := 3; day := 14; hours := 9; minutes := 5;
     seconds := 7; milliseconds := 42 |}.


Definition primarySheet : jsstring :=
  joinLines [str "Regional Duals"; str "152 lbs";
             str "John Smith 5-2 1st pin"].

Definition fallbackSheet : jsstring :=
  joinLines [str "Tournament Sheet"; str "John Smith 152"].

Definition repeatedSheet : jsstring :=
  joinLines [str "John Smith 152"; str "John Smith 152"].

Definition johnSmithPrimary : athlete :=
  {| name := str "John Smith"; weightClass := str "152 lbs";
     placement := Some (Int 1); wins := Some (Int 5);
     losses := Some (Int 2); pins := Some (Int 1);
     takedowns := Some (Int 0) |}.

Definition johnSmithFallback : athlete :=
  {| name := str "John Smith"; weightClass := str "152 lbs";
     placement := None; wins := None; losses := None; pins := None;
     takedowns := None |}.

Definition johnSmithBare : athlete :=
  {| name := str "John Smith"; weightClass := str "152 lbs";
     placement := None; wins := None; losses := None;
     pins := Some (Int 0); takedowns := Some (Int 0) |}.


(** A marker line, [n] lines without a name or a weight, then a name. *)
Definition spacedSheet (n : nat) : list jsstring :=
  str "152 lbs" :: repeat (str "x") n ++ [str "John Smith"].

(** A sheet with no name, no number and no date. *)
Definition headerSheet : jsstring := str "Just some unrelated header text".



End Samples.

Import Samples.

(* ================================================================== *)
(** ** Thrown values, traces and Numbers *)

Module Effects.

(** [error instanceof Error ? error.message : String(error)] *)
Definition messageOf (error : thrown) : jsstring :=
  match error with
  | ErrorObject message => message
  | OtherValue asString => asString
  end.

(** [throw new Error(prefix + (...))] as the [catch] blocks write it. *)
Definition wrapError (prefix : jsstring) (error : thrown) : thrown :=
  ErrorObject (prefix ++ messageOf error).

(** A computation that calls the outside world: the calls it made, in
    order, and how it ended.  Console output is not recorded. *)
Section Io.
Variable E : Type.

Definition io (A : Type) : Type := (list E * outcome A)%type.

Definition ret (A : Type) (a : A) : io A := ([], Returned a).

Definition throw (A : Type) (error : thrown) : io A := ([], Threw error).

(** The outcome of an awaited call. *)
Definition lift (A : Type) (o : outcome A) : io A := ([], o).

(** A call to the outside world, recorded before it answers. *)
Definition call (A : Type) (e : E) (answer : outcome A) : io A :=
  ([e], answer).

Definition bind (A B : Type) (m : io A) (k : A -> io B) : io B :=
  match m with
  | (t, Returned a) => let (t', r) := k a in (t ++ t', r)
  | (t, Threw error) => (t, Threw error)
  end.

(** [try { body } catch (error) { handler }] *)
Definition tryCatch (A : Type) (body : io A) (handler : thrown -> io A)
  : io A :=
  match body with
  | (t, Returned a) => (t, Returned a)
  | (t, Threw error) => let (t', r) := handler error in (t ++ t', r)
  end.

Definition trace (A : Type) (m : io A) : list E := fst m.
Definition result (A : Type) (m : io A) : outcome A := snd m.
End Io.

Arguments ret {E A} a.
Arguments throw {E A} error.
Arguments lift {E A} o.
Arguments call {E A} e answer.
Arguments bind {E A B} m k.
Arguments tryCatch {E A} body handler.
Arguments trace {E A} m.
Arguments result {E A} m.

Declare Scope io_scope.
Delimit Scope io_scope with io.
Notation "x <- m ;; k" := (bind m (fun x => k))
  (at level 61, m at next level, right associativity) : io_scope.
Notation "m ;; k" := (bind m (fun _ => k))
  (at level 61, right associativity) : io_scope.

End Effects.

Module Num.

(** An integer-valued Number.  [Whole z] is the integer [z], which a
    Number holds exactly when it lies within 2^53 of zero; [Lossy] is
    any other Number, not followed further. *)
Inductive num : Type :=
| Whole (z : Z)
| Lossy.

Definition maxExact : Z := 9007199254740992.

Definition whole (z : Z) : num :=
  if (Z.abs z <=? maxExact)%Z then Whole z else Lossy.

(** [a + b] : exact while both operands and the sum are. *)
Definition add (a b : num) : num :=
  match a, b with
  | Whole x, Whole y => whole (x + y)
  | _, _ => Lossy
  end.

(** [v || 0] on a Number that may be missing or [null]. *)
Definition orZero (v : option num) : num :=
  match v with
  | Some n => n
  | None => Whole 0
  end.

(** The Number a [parseInt] result is. *)
Definition ofNumber (n : number) : num :=
  match n with
  | Int v => whole (Z.of_N v)
  | Rounded _ => Lossy
  end.

End Num.

(* ================================================================== *)
(** ** pdfParser.ts: cleanupFile *)

Module Cleanup.
Import Effects.
Local Open Scope io_scope.

Inductive event : Type :=
| UnlinkSync (filePath : jsstring).

Section CleanupFile.
Variable existsSync : jsstring -> bool.
Variable unlinkSync : jsstring -> outcome unit.

Definition cleanupFile (filePath : jsstring) : io event unit :=
  tryCatch
    (if existsSync filePath
     then call (UnlinkSync filePath) (unlinkSync filePath)
     else ret tt)
    (fun error => ret tt).
End CleanupFile.

End Cleanup.

(* ================================================================== *)
(** ** storage.ts: season statistics *)

Module Storage.
Import Num.

(** The columns of an [athlete_performances] row the statistics read:
    nullable integers. *)
Record AthletePerformance : Type := {
  wins : option Z;
  losses : option Z;
  pins : option Z
}.

Record seasonStats : Type := {
  totalWins : num;
  totalLosses : num;
  totalPins : num
}.

(** [perf.wins || 0] on a column read as a Number. *)
Definition column (v : option Z) : num := orZero (option_map whole v).

(** The [reduce] of [getAthleteSeasonStats] over the rows the query
    returned. *)
Definition getAthleteSeasonStats (performances : list AthletePerformance)
  : seasonStats :=
  fold_left
    (fun acc perf =>
       {| totalWins := add (totalWins acc) (column (wins perf));
          totalLosses := add (totalLosses acc) (column (losses perf));
          totalPins := add (totalPins acc) (column (pins perf)) |})
    performances
    {| totalWins := Whole 0; totalLosses := Whole 0; totalPins := Whole 0 |}.

(** A row whose three columns hold 32-bit integers or null. *)
Definition isInt32 (v : option Z) : Prop :=
  match v with
  | Some z => (- 2147483648 <= z <= 2147483647)%Z
  | None => True
  end.

Definition isRow (perf : AthletePerformance) : Prop :=
  isInt32 (wins perf) /\ isInt32 (losses perf) /\ isInt32 (pins perf).

Definition columnValue (v : option Z) : Z :=
  match v with
  | Some z => z
  | None => 0%Z
  end.

Definition sumOf (f : AthletePerformance -> option Z)
           (performances : list AthletePerformance) : Z :=
  fold_right (fun perf s => (columnValue (f perf) + s)%Z) 0%Z performances.

End Storage.

(* ================================================================== *)
(** ** Client pages: competition statistics and message previews *)

Module Pages.
Import Num.

(** What the page receives as [competition.parsedData]: nothing, or an
    object whose [athletes] may be missing. *)
Record storedData : Type := {
  storedAthletes : option (list athlete)
}.

Record competitionStats : Type := {
  athleteCount : nat;
  totalMatches : num
}.

(** [getCompetitionStats] of dashboard.tsx. *)
Definition getCompetitionStats (parsedData : option storedData)
  : competitionStats :=
  match parsedData with
  | None => {| athleteCount := 0; totalMatches := Whole 0 |}
  | Some data =>
      match storedAthletes data with
      | None => {| athleteCount := 0; totalMatches := Whole 0 |}
      | Some athletes =>
          let totalMatches :=
            fold_left
              (fun sum athlete =>
                 add (add sum (orZero (option_map ofNumber (wins athlete))))
                     (orZero (option_map ofNumber (losses athlete))))
              athletes (Whole 0) in
          {| athleteCount := length athletes; totalMatches := totalMatches |}
      end
  end.

(** The parser's result as the page reads it back. *)
Definition stored (r : ParsedCompetitionData) : option storedData :=
  Some {| storedAthletes := Some (athletes r) |}.

(** [getMessagePreview] of message-history.tsx. *)
Definition getMessagePreview (content : jsstring) : jsstring :=
  match content with
  | [] => str "No content preview available"
  | _ :: _ =>
      if 100 <? length content then firstn 100 content ++ str "..."
      else content
  end.

End Pages.

(* ================================================================== *)
(** ** auth.ts *)

Module Auth.

(** A user as the session holds it: the row without its password. *)
Record User : Type := {
  id : jsstring;
  email : option jsstring;
  firstName : option jsstring;
  lastName : option jsstring;
  profileImageUrl : option jsstring;
  role : option jsstring;
  createdAt : option Z;
  updatedAt : option Z
}.

(** A row of [users] as [getUserByEmail] returns it. *)
Record userRow : Type := {
  password : option jsstring;
  userWithoutPassword : User
}.

Definition testUser : User :=
  {| id := str "test-user-id";
     email := Some (str "test@g.com");
     firstName := Some (str "Test");
     lastName := Some (str "User");
     profileImageUrl := None;
     role := Some (str "primary_coach");
     createdAt := None;
     updatedAt := None |}.

(** The three ways the strategy calls [done]. *)
Inductive verified : Type :=
| DoneError (err : thrown)
| DoneUser (user : User)
| DoneFalse (message : jsstring).

(** The two ways [deserializeUser] calls [done]. *)
Inductive deserialized : Type :=
| FailedWith (err : thrown)
| Deserialized (user : option User).

(** The credentials the strategy accepts without looking anyone up. *)
Definition isTestLogin (email password : jsstring) : Prop :=
  email = str "test@g.com" /\ password = str "asdf123".

Section Strategy.
Variable getUserByEmail : jsstring -> outcome (option userRow).
Variable getUser : jsstring -> outcome (option User).
Variable bcryptCompare : jsstring -> jsstring -> outcome bool.

(** The verify callback of the [LocalStrategy]. *)
Definition verify (email password : jsstring) : verified :=
  if jsstring_eqb email (str "test@g.com") &&
     jsstring_eqb password (str "asdf123")
  then DoneUser testUser
  else
    match getUserByEmail email with
    | Threw err => DoneError err
    | Returned None => DoneFalse (str "Incorrect email.")
    | Returned (Some user) =>
        match Auth.password user with
        | None | Some [] => DoneFalse (str "Incorrect password.")
        | Some hash =>
            match bcryptCompare password hash with
            | Threw err => DoneError err
            | Returned false => DoneFalse (str "Incorrect password.")
            | Returned true => DoneUser (userWithoutPassword user)
            end
        end
    end.

(** [passport.serializeUser] : the id is what the session keeps. *)
Definition serializeUser (user : User) : jsstring := id user.

(** [passport.deserializeUser] *)
Definition deserializeUser (id : jsstring) : deserialized :=
  if jsstring_eqb id (str "test-user-id") then Deserialized (Some testUser)
  else
    match getUser id with
    | Threw err => FailedWith err
    | Returned user => Deserialized user
    end.
End Strategy.

(** [isAuthenticated] : what the middleware does with a request. *)
Inductive gate : Type :=
| Next
| Unauthorized (status : nat) (message : jsstring).

Definition isAuthenticated (reqIsAuthenticated : bool) : gate :=
  if reqIsAuthenticated then Next
  else Unauthorized 401 (str "Unauthorized").

End Auth.

(* ================================================================== *)
(** ** emailService.ts *)

Module EmailService.
Import Effects.
Local Open Scope io_scope.

(** The columns of the rows the service reads; [athleteId] is the
    [id] of an athlete. *)
Record Team : Type := {
  name : jsstring;
  primaryColor : option jsstring
}.

Record Athlete : Type := {
  athleteId : jsstring
}.

Record AthleteEmail : Type := {
  email : jsstring
}.

Record Newsletter : Type := {
  id : jsstring;
  teamId : jsstring;
  subject : jsstring
}.

Record mailOptions : Type := {
  from : option jsstring;
  bcc : list jsstring;
  mailSubject : jsstring;
  html : jsstring
}.

(** The partial rows [updateNewsletter] is given. *)
Inductive updates : Type :=
| SentAt (sentAt : Date)
| RecipientCount (recipientCount : nat).

(** The calls that reach the mail server or write to the database. *)
Inductive event : Type :=
| SendMail (options : mailOptions)
| UpdateNewsletter (id : jsstring) (changes : updates).

(** [a || b] where either may be unset; an empty string is falsy. *)
Definition orUnset (a b : option jsstring) : option jsstring :=
  match a with
  | Some (_ :: _) => a
  | _ => b
  end.

Definition lf : jsstring := [chr "010"].
Definition dq : jsstring := [chr "034"].

(** [content.replace(/\n/g, '<br>')] *)
Fixpoint replaceLineFeeds (content : jsstring) : jsstring :=
  match content with
  | [] => []
  | c :: rest =>
      if cu_eqb c (chr "010") then str "<br>" ++ replaceLineFeeds rest
      else c :: replaceLineFeeds rest
  end.

(** [team.primaryColor || '#3B82F6'] *)
Definition colorOf (team : Team) : jsstring :=
  match primaryColor team with
  | Some (c :: rest) => c :: rest
  | _ => str "#3B82F6"
  end.

(** The template literal of [sendCustomEmail], line by line. *)
Definition customEmailHtml (team : Team) (content : jsstring) : jsstring :=
  lf ++
  str "        <div style=" ++ dq ++
  str "font-family: Arial, sans-serif; max-width: 600px; margin: 0 auto; padding: 20px;" ++
  dq ++ str ">" ++ lf ++
  str "          <h2 style=" ++ dq ++ str "color: " ++ colorOf team ++
  str ";" ++ dq ++ str ">" ++ name team ++ str "</h2>" ++ lf ++
  str "          <div style=" ++ dq ++
  str "background: white; padding: 20px; border-radius: 10px; box-shadow: 0 2px 10px rgba(0,0,0,0.1);" ++
  dq ++ str ">" ++ lf ++
  str "            " ++ replaceLineFeeds content ++ lf ++
  str "          </div>" ++ lf ++
  str "          <p style=" ++ dq ++
  str "text-align: center; margin-top: 20px; font-size: 12px; color: #666;" ++
  dq ++ str ">" ++ lf ++
  str "            This email was sent by " ++ name team ++
  str " wrestling team." ++ lf ++
  str "          </p>" ++ lf ++
  str "        </div>" ++ lf ++
  str "      ".

Section Service.
(** The storage layer, the mail transport and the environment. *)
Variable getTeam : jsstring -> outcome (option Team).
Variable getAthletesByTeam : jsstring -> outcome (list Athlete).
Variable getAthleteEmails : jsstring -> outcome (list AthleteEmail).
Variable updateNewsletter : jsstring -> updates -> outcome (option Newsletter).
Variable sendMail : mailOptions -> outcome unit.
Variable EMAIL_FROM EMAIL_USER : option jsstring.
(** [generateNewsletterHTML], kept abstract: the page it renders (or the
    value it throws on a malformed [athleteMessages]). *)
Variable generateNewsletterHTML :
  Newsletter -> Team -> list Athlete -> outcome jsstring.
(** The [TypeError] of reading a property of [undefined]. *)
Variable undefinedRead : thrown.

(** The loop that gathers the addresses of every athlete. *)
Fixpoint collectEmails (athletes : list Athlete) (allEmails : list jsstring)
  : io event (list jsstring) :=
  match athletes with
  | [] => ret allEmails
  | athlete :: rest =>
      emails <- lift (getAthleteEmails (athleteId athlete));;
      collectEmails rest (allEmails ++ map email emails)
  end.

Definition sendNewsletter (newsletter : option Newsletter) : io event unit :=
  tryCatch
    (match newsletter with
     | None => throw undefinedRead
     | Some newsletter =>
         team <- lift (getTeam (teamId newsletter));;
         match team with
         | None => throw (ErrorObject (str "Team not found"))
         | Some team =>
             athletes <- lift (getAthletesByTeam (teamId newsletter));;
             allEmails <- collectEmails athletes [];;
             if length allEmails =? 0
             then throw (ErrorObject
                           (str "No email addresses found for this team"))
             else
               htmlContent <-
                 lift (generateNewsletterHTML newsletter team athletes);;
               let options :=
                 {| from := orUnset EMAIL_FROM EMAIL_USER;
                    bcc := allEmails;
                    mailSubject := subject newsletter;
                    html := htmlContent |} in
               call (SendMail options) (sendMail options);;
               call (UpdateNewsletter (id newsletter)
                                      (RecipientCount (length allEmails)))
                    (updateNewsletter (id newsletter)
                                      (RecipientCount (length allEmails)));;
               ret tt
         end
     end)
    (fun error =>
       throw (wrapError (str "Failed to send newsletter: ") error)).

Definition sendCustomEmail (teamId subject content : jsstring)
  : io event unit :=
  tryCatch
    (team <- lift (getTeam teamId);;
     match team with
     | None => throw (ErrorObject (str "Team not found"))
     | Some team =>
         athletes <- lift (getAthletesByTeam teamId);;
         allEmails <- collectEmails athletes [];;
         if length allEmails =? 0
         then throw (ErrorObject
                       (str "No email addresses found for this team"))
         else
           let options :=
             {| from := orUnset EMAIL_FROM EMAIL_USER;
                bcc := allEmails;
                mailSubject := subject;
                html := customEmailHtml team content |} in
           call (SendMail options) (sendMail options);;
           ret tt
     end)
    (fun error =>
       throw (wrapError (str "Failed to send custom email: ") error)).

(** *** What the runs of the two functions look like *)

(** The addresses on file for the athletes, in order. *)
Definition addressesOf (athletes : list Athlete) : list jsstring :=
  flat_map
    (fun athlete =>
       match getAthleteEmails (athleteId athlete) with
       | Returned emails => map email emails
       | Threw _ => []
       end)
    athletes.

Definition newsletterOptions (newsletter : Newsletter)
           (athletes : list Athlete) (htmlContent : jsstring) : mailOptions :=
  {| from := orUnset EMAIL_FROM EMAIL_USER;
     bcc := addressesOf athletes;
     mailSubject := subject newsletter;
     html := htmlContent |}.

Definition customOptions (team : Team) (athletes : list Athlete)
           (subject content : jsstring) : mailOptions :=
  {| from := orUnset EMAIL_FROM EMAIL_USER;
     bcc := addressesOf athletes;
     mailSubject := subject;
     html := customEmailHtml team content |}.

(** Every run of [sendNewsletter], by how far it got. *)
Inductive newsletterRun (newsletter : Newsletter) : io event unit -> Prop :=
| StoppedEarly cause :
    newsletterRun
      newsletter
      ([], Threw (wrapError (str "Failed to send newsletter: ") cause))
| MailFailed team athletes htmlContent cause :
    getTeam (teamId newsletter) = Returned (Some team) ->
    getAthletesByTeam (teamId newsletter) = Returned athletes ->
    addressesOf athletes <> [] ->
    sendMail (newsletterOptions newsletter athletes htmlContent)
    = Threw cause ->
    newsletterRun
      newsletter
      ([SendMail (newsletterOptions newsletter athletes htmlContent)],
       Threw (wrapError (str "Failed to send newsletter: ") cause))
| MailSent team athletes htmlContent :
    getTeam (teamId newsletter) = Returned (Some team) ->
    getAthletesByTeam (teamId newsletter) = Returned athletes ->
    addressesOf athletes <> [] ->
    sendMail (newsletterOptions newsletter athletes htmlContent)
    = Returned tt ->
    newsletterRun
      newsletter
      ([SendMail (newsletterOptions newsletter athletes htmlContent);
        UpdateNewsletter (id newsletter)
                         (RecipientCount (length (addressesOf athletes)))],
       match updateNewsletter
               (id newsletter)
               (RecipientCount (length (addressesOf athletes))) with
       | Returned _ => Returned tt
       | Threw cause =>
           Threw (wrapError (str "Failed to send newsletter: ") cause)
       end).

(** Every run of [sendCustomEmail], by how far it got. *)
Inductive customRun (teamId subject content : jsstring)
  : io event unit -> Prop :=
| CustomStopped cause :
    customRun
      teamId subject content
      ([], Threw (wrapError (str "Failed to send custom email: ") cause))
| CustomMailed team athletes :
    getTeam teamId = Returned (Some team) ->
    getAthletesByTeam teamId = Returned athletes ->
    addressesOf athletes <> [] ->
    customRun
      teamId subject content
      ([SendMail (customOptions team athletes subject content)],
       match sendMail (customOptions team athletes subject content) with
       | Returned _ => Returned tt
       | Threw cause =>
           Threw (wrapError (str "Failed to send custom email: ") cause)
       end).
End Service.

(** The mails a trace hands to the transport. *)
Definition mailsOf (t : list event) : list mailOptions :=
  flat_map (fun e => match e with SendMail o => [o] | _ => [] end) t.

End EmailService.

(* ================================================================== *)
(** ** routes.ts: the handlers that parse a document and send a newsletter *)

Module Routes.
Import Effects.
Local Open Scope io_scope.

(** The upload as multer leaves it in [req.file]. *)
Record File : Type := {
  path : jsstring;
  filename : jsstring
}.

Section Handlers.
(** [req.body], a validated competition and a stored one. *)
Variable Body Validated Competition : Type.

(** The object handed to [insertCompetitionSchema.parse]: the body with
    three keys set over it. *)
Record candidate : Type := {
  body : Body;
  teamId : jsstring;
  pdfUrl : jsstring;
  parsedData : ParsedCompetitionData
}.

(** What the handler answers. *)
Inductive payload : Type :=
| CompetitionJson (competition : Competition)
| MessageJson (message : jsstring) (error : option jsstring).

Record response : Type := {
  status : nat;
  json : payload
}.

Inductive event : Type :=
| CreateCompetition (competition : Validated)
| Mail (e : EmailService.event).

Variable Buffer : Type.
Variable readFileSync : jsstring -> outcome Buffer.
Variable pdf : Buffer -> outcome jsstring.
Variable schemaParse : candidate -> outcome Validated.
Variable createCompetition : Validated -> outcome Competition.

(** [POST /api/teams/:teamId/competitions] *)
Definition postCompetition (now : Date) (file : option File) (reqBody : Body)
           (teamIdParam : jsstring) : io event response :=
  tryCatch
    (match file with
     | None =>
         ret {| status := 400;
                json := MessageJson (str "No PDF file uploaded") None |}
     | Some file =>
         parsed <- lift (parsePDF readFileSync pdf now (path file));;
         validatedData <-
           lift (schemaParse
                   {| body := reqBody;
                      teamId := teamIdParam;
                      pdfUrl := str "/uploads/" ++ filename file;
                      parsedData := parsed |});;
         competition <-
           call (CreateCompetition validatedData)
                (createCompetition validatedData);;
         ret {| status := 200; json := CompetitionJson competition |}
     end)
    (fun error =>
       ret {| status := 400;
              json := MessageJson (str "Failed to create competition")
                                  (Some (messageOf error)) |}).

(** The mail service at work inside a handler. *)
Definition mailed (A : Type) (m : io EmailService.event A) : io event A :=
  (map Mail (trace m), result m).

(** The storage layer, transport and environment of the mail service. *)
Variable getTeam : jsstring -> outcome (option EmailService.Team).
Variable getAthletesByTeam : jsstring -> outcome (list EmailService.Athlete).
Variable getAthleteEmails :
  jsstring -> outcome (list EmailService.AthleteEmail).
Variable updateNewsletter :
  jsstring -> EmailService.updates -> outcome (option EmailService.Newsletter).
Variable sendMail : EmailService.mailOptions -> outcome unit.
Variable EMAIL_FROM EMAIL_USER : option jsstring.
Variable generateNewsletterHTML :
  EmailService.Newsletter -> EmailService.Team ->
  list EmailService.Athlete -> outcome jsstring.
Variable undefinedRead : thrown.

Definition sendNewsletter (newsletter : option EmailService.Newsletter)
  : io EmailService.event unit :=
  EmailService.sendNewsletter
    getTeam getAthletesByTeam getAthleteEmails updateNewsletter sendMail
    EMAIL_FROM EMAIL_USER generateNewsletterHTML undefinedRead newsletter.

(** [POST /api/newsletters/:id/send] *)
Definition postNewsletterSend (now : Date) (idParam : jsstring)
  : io event response :=
  tryCatch
    (newsletter <-
       call (Mail (EmailService.UpdateNewsletter
                     idParam (EmailService.SentAt now)))
            (updateNewsletter idParam (EmailService.SentAt now));;
     mailed (sendNewsletter newsletter);;
     ret {| status := 200;
            json := MessageJson (str "Newsletter sent successfully") None |})
    (fun error =>
       ret {| status := 500;
              json := MessageJson (str "Failed to send newsletter")
                                  (Some (messageOf error)) |}).
End Handlers.

End Routes.

(* ================================================================== *)
(** ** Notions the further properties are stated with *)

Module Anchoring.

(** A record anchored in the lines: a weight marker at [i], and the name
    on one of the nine lines after it. *)
Definition anchored (lines : list jsstring) (a : athlete) : Prop :=
  exists i j weightMatch nameMatch,
    i < j < Nat.min (i + 10) (length lines) /\
    search weightRe (lineAt lines i) = Some weightMatch /\
    weightClass a = group 1 (groups weightMatch) ++ str " lbs" /\
    search nameRe (lineAt lines j) = Some nameMatch /\
    name a = group 1 (groups nameMatch).

End Anchoring.

(* ================================================================== *)
(** ** Sample rows, accounts and services *)

Module MoreSamples.

Definition markerAndName : list jsstring :=
  [str "152 lbs"; str "John Smith"].

Definition markerMatch : matchResult :=
  {| whole := str "152 lbs"; groups := [(1, str "152")] |}.

Definition nameMatchOfJohn : matchResult :=
  {| whole := str "John Smith"; groups := [(1, str "John Smith")] |}.

Definition sampleRows : list Storage.AthletePerformance :=
  [{| Storage.wins := Some 3%Z; Storage.losses := Some 1%Z;
      Storage.pins := None |};
   {| Storage.wins := Some 2%Z; Storage.losses := None;
      Storage.pins := Some 1%Z |}].

Definition sampleUser : Auth.User :=
  {| Auth.id := str "u1";
     Auth.email := Some (str "coach@school.org");
     Auth.firstName := Some (str "Pat");
     Auth.lastName := Some (str "Lee");
     Auth.profileImageUrl := None;
     Auth.role := Some (str "primary_coach");
     Auth.createdAt := None;
     Auth.updatedAt := None |}.

Definition nobody : jsstring -> outcome (option Auth.userRow) :=
  fun _ => Returned None.

Definition neverMatches : jsstring -> jsstring -> outcome bool :=
  fun _ _ => Returned false.

Definition onlySampleUser : jsstring -> outcome (option Auth.User) :=
  fun _ => Returned (Some sampleUser).

Definition sampleTeam : EmailService.Team :=
  {| EmailService.name := str "Tigers"; EmailService.primaryColor := None |}.

Definition sampleNewsletter : EmailService.Newsletter :=
  {| EmailService.id := str "n1"; EmailService.teamId := str "t1";
     EmailService.subject := str "Week 3" |}.

Definition teamFound : jsstring -> outcome (option EmailService.Team) :=
  fun _ => Returned (Some sampleTeam).

Definition oneAthlete : jsstring -> outcome (list EmailService.Athlete) :=
  fun _ => Returned [{| EmailService.athleteId := str "a1" |}].

Definition oneAddress : jsstring -> outcome (list EmailService.AthleteEmail) :=
  fun _ => Returned [{| EmailService.email := str "parent@home.org" |}].

Definition updateWorks :
  jsstring -> EmailService.updates -> outcome (option EmailService.Newsletter) :=
  fun _ _ => Returned (Some sampleNewsletter).

Definition databaseDown : thrown := ErrorObject (str "connection lost").

Definition updateFails :
  jsstring -> EmailService.updates -> outcome (option EmailService.Newsletter) :=
  fun _ _ => Threw databaseDown.

Definition mailGoesOut : EmailService.mailOptions -> outcome unit :=
  fun _ => Returned tt.

Definition pageRendered :
  EmailService.Newsletter -> EmailService.Team ->
  list EmailService.Athlete -> outcome jsstring :=
  fun _ _ _ => Returned (str "<p>Week 3</p>").

Definition sampleMail : EmailService.mailOptions :=
  {| EmailService.from := None;
     EmailService.bcc := [str "parent@home.org"];
     EmailService.mailSubject := str "Week 3";
     EmailService.html := str "<p>Week 3</p>" |}.

Definition noSuchFile : thrown := ErrorObject (str "ENOENT: no such file").

Definition sampleUpload : Routes.File :=
  {| Routes.path := str "uploads/abc"; Routes.filename := str "abc" |}.

End MoreSamples.

(** Inversion of a hypothesis, leaving only what it yields. *)
Ltac inv H := inversion H; subst; clear H.

(* ================================================================== *)
(** ** The matcher against the declarative meaning of patterns *)

Module RegexFacts.

Lemma consumed_app (w rest : jsstring) :
  consumed (w ++ rest) rest = w.
Proof.
  unfold consumed. rewrite length_app.
  replace (length w + length rest - length rest) with (length w) by lia.
  rewrite firstn_app, firstn_all, Nat.sub_diag. simpl. apply app_nil_r.
Qed.

Section Soundness.
Variable A : Type.

Lemma rep_sound p (s : jsstring) :
  forall lo hi caps (k : cont A) a,
    rep p lo hi s caps k = Some a ->
    exists w rest,
      s = w ++ rest /\ Forall (fun c => p c = true) w /\
      withinBounds lo hi (length w) /\ k rest caps = Some a.
Proof.
  induction s as [|c s IH]; intros lo hi caps k a H; simpl in H.
  - destruct lo; [|discriminate].
    exists [], []. repeat split; simpl; auto. destruct hi; lia.
  - assert (Hstop : match lo with O => k (c :: s) caps | S _ => None end
                    = Some a ->
                    exists w rest, c :: s = w ++ rest /\
                      Forall (fun c => p c = true) w /\
                      withinBounds lo hi (length w) /\ k rest caps = Some a).
    { intros Hs. destruct lo; [|discriminate].
      exists [], (c :: s). repeat split; simpl; auto. destruct hi; lia. }
    destruct (p c) eqn:Hp; simpl in H; [|auto].
    destruct (mayTakeMore hi) eqn:Hm; [|auto].
    destruct (rep p (pred lo) (option_map pred hi) s caps k) eqn:Hr; [|auto].
    inversion H; subst a0. clear H.
    destruct (IH _ _ _ _ _ Hr) as (w & rest & -> & Hall & [Hlo Hhi] & Hk).
    exists (c :: w), rest. repeat split; simpl; auto; try lia.
    destruct hi as [[|h]|]; simpl in *; try discriminate; auto; lia.
Qed.

Lemma matchAt_sound r :
  forall (s : jsstring) caps (k : cont A) a,
    matchAt r s caps k = Some a ->
    exists w rest caps',
      s = w ++ rest /\ lang r w /\ k rest caps' = Some a.
Proof.
  induction r as [|p|p lo hi|r1 IH1 r2 IH2|r1 IH1 r2 IH2|n r IH];
    intros s caps k a H; simpl in H.
  - exists [], s, caps. repeat split; auto. constructor.
  - destruct s as [|c s]; [discriminate|].
    destruct (p c) eqn:Hp; [|discriminate].
    exists [c], s, caps. repeat split; auto. constructor; auto.
  - destruct (rep_sound _ _ _ _ _ _ H) as (w & rest & -> & Hall & Hb & Hk).
    exists w, rest, caps. repeat split; auto. constructor; auto.
  - destruct (IH1 _ _ _ _ H) as (w1 & rest1 & caps1 & -> & L1 & H1).
    destruct (IH2 _ _ _ _ H1) as (w2 & rest2 & caps2 & -> & L2 & H2).
    exists (w1 ++ w2), rest2, caps2. rewrite <- app_assoc.
    repeat split; auto. constructor; auto.
  - destruct (matchAt r1 s caps k) eqn:H1.
    + inversion H; subst a0.
      destruct (IH1 _ _ _ _ H1) as (w & rest & caps' & -> & L & Hk).
      exists w, rest, caps'. repeat split; auto. apply L_AltL; auto.
    + destruct (IH2 _ _ _ _ H) as (w & rest & caps' & -> & L & Hk).
      exists w, rest, caps'. repeat split; auto. apply L_AltR; auto.
  - destruct (IH _ _ _ _ H) as (w & rest & caps' & -> & L & Hk).
    exists w, rest, ((n, consumed (w ++ rest) rest) :: caps').
    repeat split; auto. constructor; auto.
Qed.
End Soundness.

Section Completeness.
Variable A : Type.

Lemma rep_complete p (w : jsstring) :
  forall lo hi rest caps (k : cont A),
    Forall (fun c => p c = true) w ->
    withinBounds lo hi (length w) ->
    k rest caps <> None ->
    rep p lo hi (w ++ rest) caps k <> None.
Proof.
  induction w as [|c w IH]; intros lo hi rest caps k Hall [Hlo Hhi] Hk.
  - simpl in Hlo. assert (lo = 0) by lia. subst lo. simpl.
    destruct rest as [|c rest]; simpl; auto.
    destruct (p c && mayTakeMore hi); auto.
    destruct (rep p 0 (option_map pred hi) rest caps k); auto. discriminate.
  - inversion Hall as [|? ? Hc Hw]; subst. simpl.
    rewrite Hc. simpl.
    assert (Hm : mayTakeMore hi = true).
    { destruct hi as [[|h]|]; simpl in *; auto; lia. }
    rewrite Hm.
    assert (Hin : rep p (pred lo) (option_map pred hi) (w ++ rest) caps k
                  <> None).
    { apply IH; auto. split; simpl in *; [lia|].
      destruct hi as [h|]; simpl; auto; lia. }
    destruct (rep p (pred lo) (option_map pred hi) (w ++ rest) caps k);
      [discriminate | contradiction].
Qed.

Lemma matchAt_complete r (w : jsstring) :
  lang r w ->
  forall rest (k : cont A) caps,
    (forall caps', k rest caps' <> None) ->
    matchAt r (w ++ rest) caps k <> None.
Proof.
  induction 1 as [|p c Hc|p lo hi w Hall Hb|r1 r2 w1 w2 L1 IH1 L2 IH2
                  |r1 r2 w L IH|r1 r2 w L IH|n r w L IH];
    intros rest k caps Hk; simpl.
  - apply Hk.
  - rewrite Hc. apply Hk.
  - apply rep_complete; auto.
  - rewrite <- app_assoc. apply IH1. intros caps'. apply IH2. exact Hk.
  - specialize (IH rest k caps Hk).
    destruct (matchAt r1 (w ++ rest) caps k); [discriminate|contradiction].
  - destruct (matchAt r1 (w ++ rest) caps k); [discriminate|].
    apply IH; auto.
  - apply IH. intros caps'. apply Hk.
Qed.
End Completeness.

Lemma accept_total (s rest : jsstring) caps : accept s rest caps <> None.
Proof. discriminate. Qed.

Lemma search_eq r (s : jsstring) :
  search r s =
  match matchAt r s [] (accept s) with
  | Some m => Some m
  | None => match s with [] => None | _ :: s' => search r s' end
  end.
Proof. destruct s; reflexivity. Qed.

Lemma matchAt_accept r (s : jsstring) m :
  matchAt r s [] (accept s) = Some m ->
  exists rest caps',
    s = whole m ++ rest /\ lang r (whole m) /\
    m = {| whole := consumed s rest; groups := caps' |}.
Proof.
  intros H.
  destruct (matchAt_sound _ _ _ _ H) as (w & rest & caps' & E & L & Hk).
  subst s. unfold accept in Hk. inversion Hk; subst m. simpl.
  rewrite consumed_app. exists rest, caps'.
  repeat split; auto. now rewrite consumed_app.
Qed.

(** A successful search returns an occurrence of the pattern, and no
    occurrence starts before it. *)
Lemma search_sound r (s : jsstring) m :
  search r s = Some m ->
  exists pre post,
    s = pre ++ whole m ++ post /\ lang r (whole m) /\
    forall pre', occursAt r pre' s -> length pre <= length pre'.
Proof.
  assert (Here : forall s, matchAt r s [] (accept s) = Some m ->
            exists pre post,
              s = pre ++ whole m ++ post /\ lang r (whole m) /\
              forall pre', occursAt r pre' s -> length pre <= length pre').
  { intros s0 H. destruct (matchAt_accept _ _ H) as (rest & _ & E & L & _).
    exists [], rest. repeat split; auto. intros; simpl; lia. }
  induction s as [|c s IH]; simpl.
  - destruct (matchAt r [] [] (accept [])) eqn:H; [|discriminate].
    intros E; inversion E; subst m0. auto.
  - destruct (matchAt r (c :: s) [] (accept (c :: s))) eqn:H.
    + intros E; inversion E; subst m0. auto.
    + intros Hs. destruct (IH Hs) as (pre & post & E & L & Hmin).
      exists (c :: pre), post. repeat split; auto.
      * simpl. rewrite <- E. reflexivity.
      * intros pre' (w & post' & E' & L').
        destruct pre' as [|c' pre'].
        -- exfalso. simpl in E'. rewrite E' in H.
           apply (matchAt_complete L' post' (accept (w ++ post')) []);
             auto using accept_total.
        -- simpl in E'. inversion E'; subst c'.
           simpl. apply le_n_S. apply Hmin. exists w, post'. auto.
Qed.

Lemma search_here r (s : jsstring) :
  matchAt r s [] (accept s) <> None -> search r s <> None.
Proof.
  destruct s; simpl; destruct (matchAt r _ [] (accept _));
    intros H; try discriminate; contradiction.
Qed.

Lemma search_complete r (s : jsstring) :
  contains r s -> search r s <> None.
Proof.
  intros (pre & w & post & E & L). subst s.
  induction pre as [|c pre IH].
  - apply search_here. simpl. apply matchAt_complete; auto.
    intros caps. apply accept_total.
  - simpl.
    destruct (matchAt r (c :: pre ++ w ++ post) []
                      (accept (c :: pre ++ w ++ post))); [discriminate|].
    exact IH.
Qed.

Lemma search_none r (s : jsstring) :
  search r s = None <-> ~ contains r s.
Proof.
  split.
  - intros H C. apply (search_complete C H).
  - intros H. destruct (search r s) as [m|] eqn:E; auto.
    exfalso. apply H.
    destruct (search_sound _ _ E) as (pre & post & Es & L & _).
    exists pre, (whole m), post. auto.
Qed.

Lemma search_some r (s : jsstring) :
  (exists m, search r s = Some m) <-> contains r s.
Proof.
  split.
  - intros (m & E).
    destruct (search_sound _ _ E) as (pre & post & Es & L & _).
    exists pre, (whole m), post. auto.
  - intros C. destruct (search r s) as [m|] eqn:E; eauto.
    exfalso. exact (search_complete C E).
Qed.

(** A group around the whole pattern captures the whole match. *)
Lemma search_group_whole n r (s : jsstring) m :
  search (Grp n r) s = Some m -> group n (groups m) = whole m.
Proof.
  assert (Here : forall s, matchAt (Grp n r) s [] (accept s) = Some m ->
                           group n (groups m) = whole m).
  { intros s0 H. simpl in H.
    destruct (matchAt_sound _ _ _ _ H) as (w & rest & caps' & _ & _ & Hk).
    unfold accept in Hk. inversion Hk. simpl. rewrite Nat.eqb_refl. auto. }
  induction s as [|c s IH]; rewrite search_eq.
  - destruct (matchAt (Grp n r) [] [] (accept [])) eqn:H; [|discriminate].
    intros E; inversion E; subst m0. eauto.
  - destruct (matchAt (Grp n r) (c :: s) [] (accept (c :: s))) eqn:H; auto.
    intros E; inversion E; subst m0. eauto.
Qed.

Lemma matchAt_groupless (A : Type) r :
  groupless r = true ->
  forall (s : jsstring) caps (k : cont A) a,
    matchAt r s caps k = Some a ->
    exists w rest, s = w ++ rest /\ k rest caps = Some a.
Proof.
  induction r as [|p|p lo hi|r1 IH1 r2 IH2|r1 IH1 r2 IH2|n r IH];
    simpl; intros G s caps k a H; try discriminate.
  - exists [], s. auto.
  - destruct s as [|c s]; [discriminate|].
    destruct (p c); [|discriminate]. exists [c], s. auto.
  - destruct (rep_sound _ _ _ _ _ _ H) as (w & rest & E & _ & _ & Hk).
    eauto.
  - apply andb_true_iff in G. destruct G as [G1 G2].
    destruct (IH1 G1 _ _ _ _ H) as (w1 & rest1 & -> & H1).
    destruct (IH2 G2 _ _ _ _ H1) as (w2 & rest2 & -> & H2).
    exists (w1 ++ w2), rest2. rewrite <- app_assoc. auto.
  - apply andb_true_iff in G. destruct G as [G1 G2].
    destruct (matchAt r1 s caps k) eqn:H1.
    + inversion H; subst. eauto.
    + eauto.
Qed.

(** A leading group captures the text its pattern read. *)
Lemma search_leading_group p lo hi tail (s : jsstring) m :
  groupless tail = true ->
  search (Seq (Grp 1 (Rep p lo hi)) tail) s = Some m ->
  allOf p (group 1 (groups m)) /\
  withinBounds lo hi (length (group 1 (groups m))).
Proof.
  intros G.
  assert (Here : forall s,
             matchAt (Seq (Grp 1 (Rep p lo hi)) tail) s [] (accept s)
             = Some m ->
             allOf p (group 1 (groups m)) /\
             withinBounds lo hi (length (group 1 (groups m)))).
  { intros s0 H. simpl in H.
    destruct (rep_sound _ _ _ _ _ _ H) as (w & rest & -> & Hall & Hb & Hk).
    rewrite consumed_app in Hk.
    destruct (matchAt_groupless _ G _ _ _ Hk) as (w' & rest' & _ & Ha).
    unfold accept in Ha. inversion Ha. simpl. auto. }
  induction s as [|c s IH]; rewrite search_eq.
  - destruct (matchAt _ [] [] (accept [])) eqn:H; [|discriminate].
    intros E; inversion E; subst. eauto.
  - destruct (matchAt _ (c :: s) [] (accept (c :: s))) eqn:H; auto.
    intros E; inversion E; subst. eauto.
Qed.

End RegexFacts.

Import RegexFacts.

(* ================================================================== *)
(** ** Patterns of the source, read as shapes *)

Module PatternFacts.

Lemma cu_eqb_eq (a b : cu) : cu_eqb a b = true <-> a = b.
Proof. apply N.eqb_eq. Qed.

Lemma contains_occurs r line : contains r line <-> occurs (lang r) line.
Proof.
  unfold contains, occursAt, occurs. split.
  - intros (pre & w & post & E & L). eauto.
  - intros (pre & w & post & E & L). eauto.
Qed.

Lemma nonempty_length (w : jsstring) : 1 <= length w -> w <> [].
Proof. destruct w; simpl; [lia | discriminate]. Qed.

Lemma lang_capitalized w : lang capitalized w -> isCapitalizedWord w.
Proof.
  intros H. inv H.
  match goal with H : lang (Cls _) _ |- _ => inv H end.
  match goal with H : lang (Rep _ _ _) _ |- _ => inv H end.
  match goal with H : withinBounds _ _ _ |- _ => destruct H as [Hlo _] end.
  exists c, w2. repeat split; auto using nonempty_length.
Qed.

Lemma lang_nameRe w : lang nameRe w -> isFullName w.
Proof.
  intros H. inv H.
  match goal with H : lang (Seq _ _) _ |- _ => inv H end.
  match goal with H : lang (Seq _ _) _ |- _ => inv H end.
  match goal with H : lang (Rep _ _ _) _ |- _ => inv H end.
  match goal with H : withinBounds _ _ _ |- _ => destruct H as [Hlo _] end.
  exists w1, w0, w3.
  repeat split; auto using nonempty_length, lang_capitalized.
Qed.

(** The name a successful [nameRe] match captures. *)
Lemma nameRe_capture line m :
  search nameRe line = Some m -> isFullName (group 1 (groups m)).
Proof.
  intros H. unfold nameRe in H.
  rewrite (search_group_whole _ _ _ H).
  destruct (search_sound _ _ H) as (pre & post & _ & L & _).
  apply lang_nameRe. exact L.
Qed.

Lemma lang_lit a w : lang (lit a) w <-> w = [chr a].
Proof.
  split.
  - intros H. inv H. f_equal. symmetry. apply cu_eqb_eq. assumption.
  - intros ->. constructor. apply cu_eqb_eq. reflexivity.
Qed.

Lemma lang_digits lo hi w :
  lang (digits lo (Some hi)) w <-> allOf isDigit w /\ lo <= length w <= hi.
Proof.
  unfold digits. split.
  - intros H. inv H. unfold withinBounds in *. tauto.
  - intros [H1 H2]. constructor; auto.
Qed.

Lemma lang_Seq r1 r2 w :
  lang (Seq r1 r2) w <-> exists w1 w2, w = w1 ++ w2 /\ lang r1 w1 /\ lang r2 w2.
Proof.
  split.
  - intros H. inv H. eauto.
  - intros (w1 & w2 & -> & H1 & H2). constructor; auto.
Qed.

Lemma lang_Alt r1 r2 w : lang (Alt r1 r2) w <-> lang r1 w \/ lang r2 w.
Proof.
  split.
  - intros H. inv H; auto.
  - intros [H|H]; [apply L_AltL | apply L_AltR]; auto.
Qed.

Lemma lang_Grp n r w : lang (Grp n r) w <-> lang r w.
Proof.
  split.
  - intros H. inv H; auto.
  - intros H. constructor; auto.
Qed.

Lemma lang_dateWith sep w :
  lang (dateWith sep) w <->
  exists a b y,
    w = a ++ [chr sep] ++ b ++ [chr sep] ++ y /\
    allOf isDigit a /\ 1 <= length a <= 2 /\
    allOf isDigit b /\ 1 <= length b <= 2 /\
    allOf isDigit y /\ 2 <= length y <= 4.
Proof.
  unfold dateWith. split.
  - intros H.
    apply lang_Seq in H. destruct H as (a & w1 & -> & Ha & H).
    apply lang_Seq in H. destruct H as (s1 & w2 & -> & Hs1 & H).
    apply lang_Seq in H. destruct H as (b & w3 & -> & Hb & H).
    apply lang_Seq in H. destruct H as (s2 & y & -> & Hs2 & Hy).
    apply lang_lit in Hs1, Hs2. subst.
    apply lang_digits in Ha, Hb, Hy.
    exists a, b, y. tauto.
  - intros (a & b & y & -> & Ha & La & Hb & Lb & Hy & Ly).
    repeat (apply L_Seq); try (apply lang_lit; reflexivity);
      apply lang_digits; auto.
Qed.

Lemma lang_dateRe w : lang dateRe w <-> isNumericDate w.
Proof.
  unfold dateRe, isNumericDate. rewrite lang_Alt, !lang_dateWith. split.
  - intros [(a & b & y & H)|(a & b & y & H)].
    + exists (chr "/"), a, b, y. tauto.
    + exists (chr "-"), a, b, y. tauto.
  - intros (sep & a & b & y & E & [->| ->] & H);
      [left|right]; exists a, b, y; tauto.
Qed.

Lemma isNumericDate_nonempty w : isNumericDate w -> w <> [].
Proof.
  intros (sep & a & b & y & -> & _ & _ & La & _).
  destruct a; simpl in *; [lia|discriminate].
Qed.

Lemma isLetterI_iff a c :
  isLower (chr a) = true ->
  isLetterI a c = true <-> c = chr a \/ c = (chr a - 32)%N.
Proof.
  intros Hl. unfold isLetterI. rewrite Hl.
  rewrite orb_true_iff, !N.eqb_eq. tauto.
Qed.

Lemma lang_weightRe w : lang weightRe w <-> isWeightMarker w.
Proof.
  unfold weightRe, isWeightMarker. split.
  - intros H.
    apply lang_Seq in H. destruct H as (d & w1 & -> & Hd & H).
    apply lang_Seq in H. destruct H as (gap & w2 & -> & Hg & H).
    apply lang_Seq in H. destruct H as (l & w3 & -> & Hl & H).
    apply lang_Seq in H. destruct H as (b & s & -> & Hb & Hs).
    apply lang_Grp, lang_digits in Hd.
    inv Hg. inv Hl. inv Hb. inv Hs.
    exists d, gap, c, c0, s.
    repeat match goal with
           | H : isLetterI _ _ = true |- _ =>
               apply isLetterI_iff in H; [|reflexivity]
           end.
    repeat split; try tauto.
    match goal with H : withinBounds 0 (Some 1) _ |- _ => destruct H as [_ Hlen] end.
    destruct s as [|c1 [|c2 s]]; simpl in Hlen; try lia; auto.
    match goal with H : Forall _ [c1] |- _ => inv H end.
    match goal with
    | H : isLetterI _ _ = true |- _ =>
        apply isLetterI_iff in H; [|reflexivity];
        right; destruct H as [->| ->]; auto
    end.
  - intros (d & gap & l & b & s & -> & Hd & Ld & Hg & Hl & Hb & Hs).
    apply L_Seq; [apply lang_Grp, lang_digits; auto|].
    apply L_Seq; [constructor; auto; split; simpl; auto; lia|].
    change ([l; b] ++ s) with ([l] ++ [b] ++ s).
    apply L_Seq; [constructor; apply isLetterI_iff; [reflexivity|tauto]|].
    apply L_Seq; [constructor; apply isLetterI_iff; [reflexivity|tauto]|].
    constructor.
    + destruct Hs as [->|[->| ->]]; repeat constructor.
    + destruct Hs as [->|[->| ->]]; split; simpl; lia.
Qed.

Lemma weightRe_capture line m :
  search weightRe line = Some m ->
  isWeightClass (group 1 (groups m) ++ str " lbs").
Proof.
  intros H. unfold weightRe, digits in H.
  apply search_leading_group in H; [|reflexivity].
  destruct H as [Hall [Hlo Hhi]].
  exists (group 1 (groups m)). auto.
Qed.

Lemma fallbackWeightRe_capture line m :
  search fallbackWeightRe line = Some m ->
  isWeightClass (group 1 (groups m) ++ str " lbs").
Proof.
  intros H. unfold fallbackWeightRe in H.
  rewrite (search_group_whole _ _ _ H).
  destruct (search_sound _ _ H) as (_ & _ & _ & L & _).
  apply lang_Grp, lang_digits in L. destruct L as [Hall Hlen].
  exists (whole m). auto.
Qed.

End PatternFacts.

Import PatternFacts.

(* ================================================================== *)
(** ** The two athlete passes *)

Module PassFacts.

Lemma jsstring_eqb_eq (a b : jsstring) : jsstring_eqb a b = true <-> a = b.
Proof.
  revert b. induction a as [|x a IH]; destruct b as [|y b]; simpl;
    try (split; [discriminate | intros H; inversion H]; fail).
  - split; auto.
  - rewrite andb_true_iff, cu_eqb_eq, IH. split.
    + intros [-> ->]. reflexivity.
    + intros H. inversion H. auto.
Qed.

Lemma sameKey_iff d a : sameKey d a = true <-> key a = key d.
Proof.
  unfold sameKey, key. rewrite andb_true_iff, !jsstring_eqb_eq. split.
  - intros [-> ->]. reflexivity.
  - intros H. inversion H. auto.
Qed.

Lemma find_sameKey_none d athletes :
  find (sameKey d) athletes = None -> ~ In (key d) (map key athletes).
Proof.
  intros H Hin. apply in_map_iff in Hin. destruct Hin as (a & E & Ha).
  apply (find_none _ _ H) in Ha.
  apply sameKey_iff in E. congruence.
Qed.

(** A loop keeps what each of its steps keeps. *)
Lemma fold_left_keeps (St X : Type) (P : St -> Prop) (step : St -> X -> St) :
  (forall acc x, P acc -> P (step acc x)) ->
  forall xs init, P init -> P (fold_left step xs init).
Proof.
  intros Hstep xs. induction xs as [|x xs IH]; simpl; auto.
Qed.

(** What one line of a window does to the array. *)
Lemma scanResultLine_cases weightClass0 athletes0 resultLine :
  scanResultLine weightClass0 athletes0 resultLine = athletes0 \/
  exists a,
    scanResultLine weightClass0 athletes0 resultLine = athletes0 ++ [a] /\
    find (sameKey a) athletes0 = None /\
    weightClass a = weightClass0 /\
    isPrimaryRecord a.
Proof.
  unfold scanResultLine.
  destruct (search nameRe resultLine) as [nm|] eqn:Hn; auto.
  match goal with
  | |- context [find (sameKey ?d) athletes0] =>
      destruct (find (sameKey d) athletes0) eqn:Hf; auto;
      right; exists d
  end.
  repeat split; auto.
  - simpl. eapply nameRe_capture; eauto.
  - simpl. destruct (search pinRe resultLine); auto.
Qed.

Lemma fallbackStep_cases athletes0 line :
  fallbackStep athletes0 line = athletes0 \/
  exists a, fallbackStep athletes0 line = athletes0 ++ [a] /\
            isFallbackRecord a.
Proof.
  unfold fallbackStep.
  destruct (search nameRe line) as [nm|] eqn:Hn; auto.
  destruct (search fallbackWeightRe line) as [wm|]; auto.
  right. eexists. split; [reflexivity|].
  repeat split; auto. simpl. eapply nameRe_capture; eauto.
Qed.

Lemma scanResultLine_keeps (P : athlete -> Prop) weightClass0 :
  (forall a, isPrimaryRecord a -> weightClass a = weightClass0 -> P a) ->
  forall athletes0 resultLine,
    Forall P athletes0 ->
    Forall P (scanResultLine weightClass0 athletes0 resultLine).
Proof.
  intros HP athletes0 resultLine H.
  destruct (scanResultLine_cases weightClass0 athletes0 resultLine)
    as [->|(a & -> & _ & Hw & Ha)]; auto.
  apply Forall_app. split; auto.
Qed.

Lemma primaryStep_keeps (P : athlete -> Prop) lines :
  (forall a, isPrimaryRecord a -> P a) ->
  forall athletes0 i, Forall P athletes0 ->
                      Forall P (primaryStep lines athletes0 i).
Proof.
  intros HP athletes0 i H. unfold primaryStep.
  destruct (search weightRe (lineAt lines i)); auto.
  apply fold_left_keeps; auto.
  intros acc j Hacc. apply scanResultLine_keeps; auto.
Qed.

(** Every record of the primary pass has the primary shape. *)
Lemma primaryPass_records lines : Forall isPrimaryRecord (primaryPass lines).
Proof.
  unfold primaryPass. apply fold_left_keeps; auto.
  intros acc i. apply primaryStep_keeps. auto.
Qed.

(** Every record the fallback loop adds has the fallback shape. *)
Lemma fallbackPass_records lines :
  Forall isFallbackRecord (fallbackPass lines []).
Proof.
  unfold fallbackPass. apply fold_left_keeps; auto.
  intros acc line Hacc.
  destruct (fallbackStep_cases acc line) as [->|(a & -> & Ha)]; auto.
  apply Forall_app. split; auto.
Qed.

(** The primary pass never holds two records with one key. *)
Lemma scanResultLine_NoDup weightClass0 athletes0 resultLine :
  NoDup (map key athletes0) ->
  NoDup (map key (scanResultLine weightClass0 athletes0 resultLine)).
Proof.
  intros H.
  destruct (scanResultLine_cases weightClass0 athletes0 resultLine)
    as [->|(a & -> & Hf & _)]; auto.
  rewrite map_app. simpl.
  apply NoDup_app; auto.
  - constructor; [intros []|constructor].
  - intros k Hin [<-|[]]. revert Hin. apply find_sameKey_none. exact Hf.
Qed.

Lemma primaryPass_NoDup lines : NoDup (map key (primaryPass lines)).
Proof.
  unfold primaryPass.
  apply (fold_left_keeps (fun acc => NoDup (map key acc))); [|constructor].
  intros acc i Hacc. unfold primaryStep.
  destruct (search weightRe (lineAt lines i)); auto.
  apply (fold_left_keeps (fun acc => NoDup (map key acc))); auto.
  intros acc' j. apply scanResultLine_NoDup.
Qed.

(** The array [extractLines] returns. *)
Lemma athletes_extractLines now lines :
  athletes (extractLines now lines) =
  match primaryPass lines with
  | [] => fallbackPass lines []
  | _ :: _ => primaryPass lines
  end.
Proof.
  unfold extractLines. simpl.
  destruct (primaryPass lines); reflexivity.
Qed.

(** The weight class of every record, in either pass. *)
Lemma primaryPass_weightClass lines :
  Forall (fun a => isWeightClass (weightClass a)) (primaryPass lines).
Proof.
  unfold primaryPass. apply fold_left_keeps; auto.
  intros acc i Hacc. unfold primaryStep.
  destruct (search weightRe (lineAt lines i)) as [m|] eqn:Hm; auto.
  apply fold_left_keeps; auto.
  intros acc' j. apply scanResultLine_keeps.
  intros a _ ->. eapply weightRe_capture; eauto.
Qed.

Lemma fallbackPass_weightClass lines :
  Forall (fun a => isWeightClass (weightClass a)) (fallbackPass lines []).
Proof.
  unfold fallbackPass. apply fold_left_keeps; auto.
  intros acc line Hacc. unfold fallbackStep.
  destruct (search nameRe line) as [nm|]; auto.
  destruct (search fallbackWeightRe line) as [wm|] eqn:Hw; auto.
  apply Forall_app. split; auto. constructor; [|constructor].
  simpl. eapply fallbackWeightRe_capture; eauto.
Qed.

(** Which pass the returned array comes from. *)
Lemma extract_athletes_cases now text :
  let lines := splitLines text in
  let r := extract now text in
  (primaryPass lines = [] /\
   athletes r = fallbackPass lines [] /\
   Forall isFallbackRecord (athletes r)) \/
  (primaryPass lines <> [] /\
   athletes r = primaryPass lines /\
   Forall isPrimaryRecord (athletes r)).
Proof.
  intros lines r. subst r. unfold extract. fold lines.
  rewrite athletes_extractLines.
  assert (Hp := primaryPass_records lines).
  assert (Hf := fallbackPass_records lines).
  destruct (primaryPass lines) as [|a0 rest] eqn:E.
  - left. auto.
  - right. repeat split; auto. discriminate.
Qed.

Lemma primary_not_fallback a : isPrimaryRecord a -> ~ isFallbackRecord a.
Proof.
  intros (_ & Hpins & _) (_ & _ & _ & _ & Hnone & _).
  rewrite Hnone in Hpins. destruct Hpins; discriminate.
Qed.

End PassFacts.

Import PassFacts.

(* ================================================================== *)
(** ** The loops of [parsePDF] *)

Module LoopFacts.

Lemma map_nth_seq (X : Type) (d : X) (l : list X) :
  forall a n, a + n <= length l ->
              map (fun j => nth j l d) (seq a n) = firstn n (skipn a l).
Proof.
  induction l as [|x l IH]; intros a n H; simpl in H.
  - assert (a = 0) by lia. assert (n = 0) by lia. subst. reflexivity.
  - destruct a as [|a].
    + destruct n as [|n]; [reflexivity|].
      simpl. f_equal. rewrite <- seq_shift, map_map. simpl.
      rewrite (IH 0 n) by lia. reflexivity.
    + rewrite <- seq_shift, map_map. simpl. apply IH. lia.
Qed.

Lemma windowLines_eq lines i :
  windowLines lines i = firstn 9 (skipn (S i) lines).
Proof.
  unfold windowLines, windowIndices, lineAt.
  replace (i + 1) with (S i) by lia.
  destruct (le_lt_dec (S i) (length lines)) as [Hle|Hgt].
  - rewrite map_nth_seq by lia.
    destruct (le_lt_dec (i + 10) (length lines)) as [H|H].
    + f_equal. lia.
    + replace (Nat.min (i + 10) (length lines) - S i)
        with (length (skipn (S i) lines))
        by (rewrite length_skipn; lia).
      rewrite firstn_all. symmetry. apply firstn_all2.
      rewrite length_skipn. lia.
  - replace (Nat.min (i + 10) (length lines) - S i) with 0 by lia.
    rewrite skipn_all2 by lia. reflexivity.
Qed.

Lemma fold_left_map (St X Y : Type) (f : St -> Y -> St) (g : X -> Y) xs :
  forall init,
    fold_left (fun acc x => f acc (g x)) xs init = fold_left f (map g xs) init.
Proof. induction xs as [|x xs IH]; simpl; auto. Qed.

Lemma primaryStep_window lines athletes0 i :
  primaryStep lines athletes0 i =
  match search weightRe (lineAt lines i) with
  | Some weightMatch =>
      fold_left (scanResultLine (group 1 (groups weightMatch) ++ str " lbs"))
                (windowLines lines i) athletes0
  | None => athletes0
  end.
Proof.
  unfold primaryStep, windowLines.
  destruct (search weightRe (lineAt lines i)); auto.
  apply fold_left_map.
Qed.



Lemma search_dateRe_nonempty line m :
  search dateRe line = Some m -> whole m <> [].
Proof.
  intros H. destruct (search_sound _ _ H) as (_ & _ & _ & L & _).
  apply isNumericDate_nonempty, lang_dateRe, L.
Qed.

Lemma orElse_nonempty a b : a <> [] -> orElse a b = a.
Proof. destruct a; [contradiction|reflexivity]. Qed.


Lemma contains_dec r line : contains r line \/ ~ contains r line.
Proof.
  destruct (search r line) as [m|] eqn:E.
  - left. apply search_some. eauto.
  - right. apply search_none. exact E.
Qed.

Lemma pad_digits w : forall n, allOf isDigit (pad w n).
Proof.
  induction w as [|w IH]; intros n; [constructor|].
  change (pad (S w) n) with (pad w (n / 10) ++ [(48 + n mod 10)%N]).
  apply Forall_app. split; [apply IH|]. constructor; [|constructor].
  unfold isDigit. assert (n mod 10 < 10)%N by (apply N.mod_lt; discriminate).
  revert H. generalize (n mod 10)%N. intros k Hk.
  apply andb_true_iff. split; apply N.leb_le; lia.
Qed.


Lemma digit_not c (x : cu) :
  isDigit c = true -> isDigit x = false -> cu_eqb c x = false.
Proof.
  intros Hc Hx. unfold cu_eqb. destruct (N.eqb_spec c x); auto. congruence.
Qed.



Lemma occurs_ext (P Q : jsstring -> Prop) line :
  (forall w, P w <-> Q w) -> occurs P line <-> occurs Q line.
Proof.
  intros H. unfold occurs. split; intros (pre & w & post & E & Hw);
    exists pre, w, post; split; auto; apply H; auto.
Qed.


Lemma contains_weight line :
  contains weightRe line <-> occurs isWeightMarker line.
Proof.
  rewrite contains_occurs. apply occurs_ext. apply lang_weightRe.
Qed.


(** The date field, by cases on the first ten lines. *)
Lemma date_extractLines now lines :
  date (extractLines now lines) =
  orElse (findDate (firstn 10 lines)) (today now).
Proof. reflexivity. Qed.





End LoopFacts.

Import LoopFacts.

(* ================================================================== *)
(** ** Lines, pieces and the texts they come from *)

Module PieceFacts.

Lemma capitalized_lang w : isCapitalizedWord w -> lang capitalized w.
Proof.
  intros (c & rest & -> & Hc & Hne & Hall).
  change (c :: rest) with ([c] ++ rest). constructor.
  - constructor. exact Hc.
  - constructor; [exact Hall|]. split; [|exact I].
    destruct rest; [contradiction|simpl; lia].
Qed.

Lemma nameRe_lang w : lang nameRe w <-> isFullName w.
Proof.
  split; [apply lang_nameRe|].
  intros (first & gap & last & -> & Hf & Hne & Hgap & Hl).
  constructor. constructor; [apply capitalized_lang; exact Hf|].
  constructor; [|apply capitalized_lang; exact Hl].
  constructor; [exact Hgap|]. split; [|exact I].
  destruct gap; [contradiction|simpl; lia].
Qed.

Lemma fallbackWeightRe_lang w : lang fallbackWeightRe w <-> isWeightNumber w.
Proof.
  unfold fallbackWeightRe, isWeightNumber.
  rewrite lang_Grp. apply lang_digits.
Qed.

Lemma contains_name line : contains nameRe line <-> occurs isFullName line.
Proof. rewrite contains_occurs. apply occurs_ext. apply nameRe_lang. Qed.

Lemma contains_number line :
  contains fallbackWeightRe line <-> occurs isWeightNumber line.
Proof.
  rewrite contains_occurs. apply occurs_ext. apply fallbackWeightRe_lang.
Qed.

(** The fallback loop pushes on exactly the lines on which both of its
    patterns match. *)
Lemma fallbackStep_pushes athletes0 line :
  (occurs isFullName line /\ occurs isWeightNumber line ->
   exists a, fallbackStep athletes0 line = athletes0 ++ [a]) /\
  (~ (occurs isFullName line /\ occurs isWeightNumber line) ->
   fallbackStep athletes0 line = athletes0).
Proof.
  unfold fallbackStep. split.
  - intros [Hn Hw].
    apply contains_name, search_some in Hn. destruct Hn as (nm & ->).
    apply contains_number, search_some in Hw. destruct Hw as (wm & ->).
    eauto.
  - intros H.
    destruct (search nameRe line) as [nm|] eqn:Hn; auto.
    destruct (search fallbackWeightRe line) as [wm|] eqn:Hw; auto.
    exfalso. apply H. split.
    + apply contains_name, search_some. eauto.
    + apply contains_number, search_some. eauto.
Qed.

Lemma fallbackLine_dec line :
  (occurs isFullName line /\ occurs isWeightNumber line) \/
  ~ (occurs isFullName line /\ occurs isWeightNumber line).
Proof.
  destruct (contains_dec nameRe line) as [Hn|Hn];
    destruct (contains_dec fallbackWeightRe line) as [Hw|Hw].
  - left. split; [apply contains_name|apply contains_number]; auto.
  - right. intros [_ H]. apply Hw, contains_number, H.
  - right. intros [H _]. apply Hn, contains_name, H.
  - right. intros [H _]. apply Hn, contains_name, H.
Qed.

Lemma fallbackPass_nonempty lines : forall athletes0,
  fallbackPass lines athletes0 <> [] <->
  athletes0 <> [] \/
  Exists (fun line => occurs isFullName line /\ occurs isWeightNumber line)
         lines.
Proof.
  unfold fallbackPass.
  induction lines as [|line rest IH]; intros athletes0; simpl.
  - split; [auto|]. intros [H|H]; [exact H|inversion H].
  - rewrite IH. destruct (fallbackStep_pushes athletes0 line) as [Hy Hn].
    destruct (fallbackLine_dec line) as [Hl|Hl].
    + destruct (Hy Hl) as (a & ->). split.
      * intros _. right. left. exact Hl.
      * intros _. left. destruct athletes0; discriminate.
    + rewrite (Hn Hl). split.
      * intros [H|H]; [left; exact H|right; right; exact H].
      * intros [H|H]; [left; exact H|].
        inversion H; subst; [contradiction|right; assumption].
Qed.























End PieceFacts.

Import PieceFacts.

(* ================================================================== *)
(** ** Properties of the extraction *)

(** C1 (as the code behaves): on a sheet whose only two lines both read
    "John Smith 152" the primary pass finds nothing, the fallback pass
    pushes the same (name, weightClass) pair twice, and the returned
    array holds a duplicate. *)
Theorem fallback_pass_pushes_duplicates :
  primaryPass (splitLines repeatedSheet) = [] /\
  athletes (extract clockA repeatedSheet)
  = [johnSmithFallback; johnSmithFallback] /\
  ~ NoDup (map key (athletes (extract clockA repeatedSheet))).
Proof.
  split; [vm_compute; reflexivity|].
  split; [vm_compute; reflexivity|].
  intros H.
  replace (map key (athletes (extract clockA repeatedSheet)))
    with [key johnSmithFallback; key johnSmithFallback] in H
    by (vm_compute; reflexivity).
  inversion H as [|? ? Hnot _]. apply Hnot. left. reflexivity.
Qed.

(** C3 as stated fails: on a sheet whose one line holds neither a name
    nor a number the primary pass produces zero records and the
    fallback pass contributes none, so "if and only if" does not hold
    for every text. *)
Lemma primary_empty_yet_no_fallback_record :
  primaryPass (splitLines headerSheet) = [] /\
  athletes (extract clockA headerSheet) = [] /\
  ~ (forall (now : Date) (text : jsstring),
        (exists a, In a (athletes (extract now text)) /\ isFallbackRecord a)
        <-> primaryPass (splitLines text) = []).
Proof.
  split; [vm_compute; reflexivity|].
  split; [vm_compute; reflexivity|].
  intros H.
  destruct (proj2 (H clockA headerSheet)) as (a & Hin & _).
  - vm_compute. reflexivity.
  - vm_compute in Hin. exact Hin.
Qed.

(** C3, amended: the returned array is the fallback pass's output when
    the primary pass produced zero records, and is the primary pass's
    output, holding no record of the fallback's making, whenever the
    primary pass produced at least one; a fallback record is present if
    and only if the primary pass produced none and the fallback pass
    found one, which it does exactly when some line holds both a
    capitalized two-word name and a run of two or three digits. *)
Theorem fallback_only_when_primary_empty (now : Date) (text : jsstring) :
  let lines := splitLines text in
  let r := extract now text in
  (primaryPass lines = [] ->
   athletes r = fallbackPass lines [] /\
   Forall isFallbackRecord (athletes r)) /\
  (primaryPass lines <> [] ->
   athletes r = primaryPass lines /\
   Forall isPrimaryRecord (athletes r) /\
   Forall (fun a => ~ isFallbackRecord a) (athletes r)) /\
  ((exists a, In a (athletes r) /\ isFallbackRecord a) <->
   primaryPass lines = [] /\ fallbackPass lines [] <> []) /\
  (fallbackPass lines [] <> [] <->
   Exists (fun line => occurs isFullName line /\ occurs isWeightNumber line)
          lines).
Proof.
  intros lines r.
  assert (Hfb : fallbackPass lines [] <> [] <->
                Exists (fun line => occurs isFullName line /\
                                    occurs isWeightNumber line) lines).
  { rewrite fallbackPass_nonempty. split; [|auto].
    intros [H|H]; [contradiction|exact H]. }
  destruct (extract_athletes_cases now text)
    as [(He & Ha & Hf)|(Hne & Ha & Hp)]; fold lines in He || fold lines in Hne;
    fold lines in Ha; fold r in Ha; fold r in Hf || fold r in Hp.
  - split; [auto|]. split; [intros H; contradiction|].
    split; [|exact Hfb]. split.
    + intros (a & Hin & _). split; auto.
      intros E'. rewrite Ha, E' in Hin. destruct Hin.
    + intros [_ Hne]. rewrite Ha in *.
      destruct (fallbackPass lines []) as [|a l]; [contradiction|].
      exists a. split; [left; reflexivity|].
      inversion Hf; auto.
  - assert (Hno : Forall (fun a => ~ isFallbackRecord a) (athletes r)).
    { eapply Forall_impl; [|exact Hp]. apply primary_not_fallback. }
    split; [intros H; contradiction|]. split; [auto|].
    split; [|exact Hfb]. split.
    + intros (a & Hin & Hfa). exfalso.
      rewrite Forall_forall in Hno. exact (Hno a Hin Hfa).
    + intros [H _]. contradiction.
Qed.

Lemma fallback_only_when_primary_empty_witness :
  (exists a,
      In a (athletes (extract clockA fallbackSheet)) /\ isFallbackRecord a) /\
  Exists (fun line => occurs isFullName line /\ occurs isWeightNumber line)
         (splitLines fallbackSheet).
Proof.
  destruct (fallback_only_when_primary_empty clockA fallbackSheet)
    as (_ & _ & Hrecord & Hline).
  split.
  - apply Hrecord. split; [vm_compute; reflexivity|].
    vm_compute. discriminate.
  - apply Hline. vm_compute. discriminate.
Defined.

(** C7: every text whose non-empty lines are "Regional Duals", "152 lbs"
    and "John Smith 5-2 1st pin" yields exactly one record: John Smith,
    "152 lbs", placement 1, wins 5, losses 2, pins 1 (and takedowns 0),
    under the competition name "Regional Duals". *)
Theorem primary_scenario (now : Date) (text : jsstring) :
  splitLines text
  = [str "Regional Duals"; str "152 lbs"; str "John Smith 5-2 1st pin"] ->
  athletes (extract now text) = [johnSmithPrimary] /\
  competitionName (extract now text) = str "Regional Duals".
Proof.
  intros H. unfold extract. rewrite H. split; vm_compute; reflexivity.
Qed.

Lemma primary_scenario_witness :
  splitLines primarySheet
  = [str "Regional Duals"; str "152 lbs"; str "John Smith 5-2 1st pin"] /\
  athletes (extract clockA primarySheet) = [johnSmithPrimary] /\
  competitionName (extract clockA primarySheet) = str "Regional Duals".
Proof.
  split; [vm_compute; reflexivity|].
  apply (primary_scenario clockA primarySheet). vm_compute; reflexivity.
Defined.

(** C8: every text whose non-empty lines are "Tournament Sheet" and
    "John Smith 152" gets no record from the primary pass and exactly
    one from the fallback pass: John Smith, "152 lbs", with placement,
    wins, losses and pins (and takedowns) absent. *)
Theorem fallback_scenario (now : Date) (text : jsstring) :
  splitLines text = [str "Tournament Sheet"; str "John Smith 152"] ->
  primaryPass (splitLines text) = [] /\
  athletes (extract now text) = [johnSmithFallback] /\
  isFallbackRecord johnSmithFallback.
Proof.
  intros H. unfold extract. rewrite H.
  split; [vm_compute; reflexivity|].
  split; [vm_compute; reflexivity|].
  assert (Hf := fallbackPass_records
                  [str "Tournament Sheet"; str "John Smith 152"]).
  replace (fallbackPass [str "Tournament Sheet"; str "John Smith 152"] [])
    with [johnSmithFallback] in Hf by (vm_compute; reflexivity).
  inversion Hf; auto.
Qed.

Lemma fallback_scenario_witness :
  splitLines fallbackSheet
  = [str "Tournament Sheet"; str "John Smith 152"] /\
  primaryPass (splitLines fallbackSheet) = [] /\
  athletes (extract clockA fallbackSheet) = [johnSmithFallback] /\
  isFallbackRecord johnSmithFallback.
Proof.
  split; [vm_compute; reflexivity|].
  apply (fallback_scenario clockA fallbackSheet). vm_compute; reflexivity.
Defined.

(** C9 as stated fails: the one record of the fallback sample has no
    takedowns field at all, so it does not equal 0. *)
Lemma fallback_record_has_no_takedowns :
  ~ Forall (fun a => takedowns a = Some (Int 0))
           (athletes (extract clockA fallbackSheet)).
Proof.
  replace (athletes (extract clockA fallbackSheet))
    with [johnSmithFallback] by (vm_compute; reflexivity).
  intros H. inversion H as [|? ? H0 _]. discriminate H0.
Qed.

(** C9, amended: takedowns is 0 on every returned record when the
    primary pass produced the records, and absent on every returned
    record when the fallback pass did; it never holds another value. *)
Theorem takedowns_zero_or_absent (now : Date) (text : jsstring) :
  let lines := splitLines text in
  let r := extract now text in
  (primaryPass lines <> [] ->
   Forall (fun a => takedowns a = Some (Int 0)) (athletes r)) /\
  (primaryPass lines = [] ->
   Forall (fun a => takedowns a = None) (athletes r)) /\
  Forall (fun a => takedowns a = Some (Int 0) \/ takedowns a = None)
         (athletes r).
Proof.
  intros lines r.
  destruct (extract_athletes_cases now text)
    as [(He & _ & Hf)|(Hne & _ & Hp)]; fold lines in He || fold lines in Hne;
    fold r in Hf || fold r in Hp.
  - assert (H : Forall (fun a => takedowns a = None) (athletes r)).
    { eapply Forall_impl; [|exact Hf].
      intros a (_ & _ & _ & _ & _ & Ht). exact Ht. }
    split; [intros Hne; contradiction|]. split; [auto|].
    eapply Forall_impl; [|exact H]. intros a Ha; auto.
  - assert (H : Forall (fun a => takedowns a = Some (Int 0)) (athletes r)).
    { eapply Forall_impl; [|exact Hp]. intros a (_ & _ & Ht). exact Ht. }
    split; [auto|]. split; [intros He; contradiction|].
    eapply Forall_impl; [|exact H]. intros a Ha; auto.
Qed.

(** C10: the name of every returned record is two capitalized words,
    each one ASCII capital followed by one or more ASCII small letters,
    separated by a non-empty run of whitespace. *)
Theorem names_are_two_capitalized_words (now : Date) (text : jsstring) :
  Forall (fun a => isFullName (name a)) (athletes (extract now text)).
Proof.
  unfold extract. rewrite athletes_extractLines.
  destruct (primaryPass (splitLines text)) as [|a0 rest] eqn:E.
  - eapply Forall_impl; [|apply fallbackPass_records].
    intros a (H & _). exact H.
  - rewrite <- E. eapply Forall_impl; [|apply primaryPass_records].
    intros a (H & _). exact H.
Qed.




(** C5 as stated fails: "5 lbs" is a one-digit number followed by "lbs",
    yet it opens no window, so the name on the next line is not read;
    and a name on the tenth line after a marker lies outside the window,
    which ends with the ninth. *)
Lemma window_as_specified_fails :
  (occurs isWeightMarkerAsSpecified (str "5 lbs") /\
   search weightRe (str "5 lbs") = None /\
   primaryPass [str "5 lbs"; str "John Smith"] = []) /\
  (windowLines (spacedSheet 9) 0 <> windowAsSpecified (spacedSheet 9) 0 /\
   windowAsSpecified (spacedSheet 9) 0
   = repeat (str "x") 9 ++ [str "John Smith"] /\
   windowLines (spacedSheet 9) 0 = repeat (str "x") 9 /\
   primaryPass (spacedSheet 9) = [] /\
   primaryPass (spacedSheet 8) = [johnSmithBare]).
Proof.
  split; [split; [|split]|split; [|split; [|split; [|split]]]];
    try (vm_compute; reflexivity).
  - exists [], (str "5 lbs"), []. split; [reflexivity|].
    exists (str "5"), (str " "), (str "lbs").
    split; [reflexivity|].
    split; [repeat constructor|].
    split; [simpl; lia|].
    split; [repeat constructor|].
    right. exists (chr "l"), (chr "b"), (str "s").
    repeat split; auto.
  - intros H. vm_compute in H. discriminate H.
Qed.

(** C5, amended: at every index the inner loop reads the (at most) nine
    lines that follow; the window is opened, with the weight class the
    marker captures, exactly when the line holds two or three digits,
    optional whitespace and "lb" in either case (an "s" may follow), and
    otherwise the step leaves the array as it was. *)
Theorem weight_marker_opens_nine_line_window
        (lines : list jsstring) (athletes0 : list athlete) (i : nat) :
  let line := lineAt lines i in
  windowLines lines i = firstn 9 (skipn (S i) lines) /\
  (occurs isWeightMarker line ->
   exists weightMatch,
     search weightRe line = Some weightMatch /\
     primaryStep lines athletes0 i
     = fold_left
         (scanResultLine (group 1 (groups weightMatch) ++ str " lbs"))
         (windowLines lines i) athletes0) /\
  (~ occurs isWeightMarker line -> primaryStep lines athletes0 i = athletes0).
Proof.
  intros line. split; [apply windowLines_eq|].
  rewrite primaryStep_window. fold line. split.
  - intros H. apply contains_weight, search_some in H.
    destruct H as (m & Hm). exists m. rewrite Hm. auto.
  - intros H.
    assert (Hn : search weightRe line = None).
    { apply search_none. intros C. apply H, contains_weight, C. }
    rewrite Hn. reflexivity.
Qed.




(* ================================================================== *)
(** ** Further properties *)

(** The primary weight-anchored pass, for every list of lines, returns no
    two records with the same (name, weightClass) pair: its insertion is
    guarded by the look-up of an existing record. *)
Theorem primary_pass_has_no_duplicates (lines : list jsstring) :
  NoDup (map key (primaryPass lines)).
Proof. apply primaryPass_NoDup. Qed.

(** Every returned record, from either pass, has a weight class made of
    two or three digits followed by " lbs". *)
Theorem weight_classes_are_digits_and_lbs (now : Date) (text : jsstring) :
  Forall (fun a => isWeightClass (weightClass a))
         (athletes (extract now text)).
Proof.
  unfold extract. rewrite athletes_extractLines.
  destruct (primaryPass (splitLines text)) as [|a0 rest] eqn:E.
  - apply fallbackPass_weightClass.
  - rewrite <- E. apply primaryPass_weightClass.
Qed.


(* ================================================================== *)
(** ** pdfParser.ts: further properties of the extraction *)

Module ParserFacts.
Import Anchoring.

Lemma fold_left_keeps_in (St X : Type) (P : St -> Prop)
      (step : St -> X -> St) xs :
  (forall acc x, In x xs -> P acc -> P (step acc x)) ->
  forall init, P init -> P (fold_left step xs init).
Proof.
  induction xs as [|x xs IH]; simpl; intros Hstep init Hinit; [exact Hinit|].
  apply IH; [|apply Hstep; auto]. intros acc y Hy. apply Hstep. auto.
Qed.

Lemma windowIndices_in i len j :
  In j (windowIndices i len) <-> i < j < Nat.min (i + 10) len.
Proof.
  unfold windowIndices. rewrite in_seq. lia.
Qed.

(** One line of the window: nothing, or one record named by the line. *)
Lemma scanResultLine_source weightClass0 athletes0 resultLine :
  scanResultLine weightClass0 athletes0 resultLine = athletes0 \/
  exists a nameMatch,
    scanResultLine weightClass0 athletes0 resultLine = athletes0 ++ [a] /\
    search nameRe resultLine = Some nameMatch /\
    name a = group 1 (groups nameMatch) /\
    weightClass a = weightClass0.
Proof.
  unfold scanResultLine.
  destruct (search nameRe resultLine) as [nm|] eqn:Hn; auto.
  match goal with
  | |- context [find (sameKey ?d) athletes0] =>
      destruct (find (sameKey d) athletes0) eqn:Hf; auto;
      right; exists d, nm
  end.
  repeat split; auto.
Qed.

(** A line with a name leaves a record with its key in the array. *)
Lemma scanResultLine_reaches weightClass0 athletes0 resultLine nameMatch :
  search nameRe resultLine = Some nameMatch ->
  exists a,
    In a (scanResultLine weightClass0 athletes0 resultLine) /\
    name a = group 1 (groups nameMatch) /\
    weightClass a = weightClass0.
Proof.
  intros Hn. unfold scanResultLine. rewrite Hn.
  match goal with
  | |- context [find (sameKey ?d) athletes0] =>
      destruct (find (sameKey d) athletes0) as [existing|] eqn:Hf
  end.
  - exists existing. apply find_some in Hf. destruct Hf as [Hin Hk].
    apply sameKey_iff in Hk. unfold key in Hk. simpl in Hk.
    inversion Hk. auto.
  - eexists. split; [apply in_or_app; right; left; reflexivity|].
    simpl. auto.
Qed.

Lemma scanResultLine_grows weightClass0 athletes0 resultLine :
  incl athletes0 (scanResultLine weightClass0 athletes0 resultLine).
Proof.
  destruct (scanResultLine_source weightClass0 athletes0 resultLine)
    as [->|(a & nm & -> & _)].
  - apply incl_refl.
  - apply incl_appl, incl_refl.
Qed.

Lemma fold_left_grows (X : Type) (step : list athlete -> X -> list athlete) :
  (forall acc x, incl acc (step acc x)) ->
  forall xs init, incl init (fold_left step xs init).
Proof.
  intros Hstep xs. induction xs as [|x xs IH]; simpl; intros init.
  - apply incl_refl.
  - eapply incl_tran; [apply Hstep|apply IH].
Qed.

Lemma primaryStep_grows lines athletes0 i :
  incl athletes0 (primaryStep lines athletes0 i).
Proof.
  unfold primaryStep. destruct (search weightRe (lineAt lines i)).
  - apply fold_left_grows. intros acc j. apply scanResultLine_grows.
  - apply incl_refl.
Qed.

(** A loop whose steps only add reaches what its step at [x] reaches. *)
Lemma fold_left_reaches (X : Type) (Q : list athlete -> Prop)
      (step : list athlete -> X -> list athlete) x :
  (forall acc y, incl acc (step acc y)) ->
  (forall acc acc', incl acc acc' -> Q acc -> Q acc') ->
  (forall acc, Q (step acc x)) ->
  forall xs init, In x xs -> Q (fold_left step xs init).
Proof.
  intros Hgrow Hmono Hx xs.
  induction xs as [|y xs IH]; simpl; intros init Hin; [contradiction|].
  destruct Hin as [->|Hin]; auto.
  eapply Hmono; [apply fold_left_grows; exact Hgrow|apply Hx].
Qed.

(** How much a loop can add when each step adds at most one record. *)
Lemma fold_left_length (X : Type)
      (step : list athlete -> X -> list athlete) :
  (forall acc x, length (step acc x) <= S (length acc)) ->
  forall xs init,
    length (fold_left step xs init) <= length init + length xs.
Proof.
  intros Hstep xs. induction xs as [|x xs IH]; simpl; intros init; [lia|].
  specialize (IH (step init x)). specialize (Hstep init x). lia.
Qed.

Lemma scanResultLine_length weightClass0 athletes0 resultLine :
  length (scanResultLine weightClass0 athletes0 resultLine)
  <= S (length athletes0).
Proof.
  destruct (scanResultLine_source weightClass0 athletes0 resultLine)
    as [->|(a & nm & -> & _)]; [lia|].
  rewrite length_app. simpl. lia.
Qed.

Lemma primaryStep_length lines athletes0 i :
  length (primaryStep lines athletes0 i) <= length athletes0 + 9.
Proof.
  unfold primaryStep. destruct (search weightRe (lineAt lines i)); [|lia].
  eapply Nat.le_trans.
  - apply fold_left_length. intros acc j. apply scanResultLine_length.
  - unfold windowIndices. rewrite length_seq. lia.
Qed.

Lemma primaryPass_length lines :
  length (primaryPass lines) <= 9 * length lines.
Proof.
  unfold primaryPass.
  assert (H : forall xs init,
             length (fold_left (primaryStep lines) xs init)
             <= length init + 9 * length xs).
  { induction xs as [|x xs IH]; simpl; intros init; [lia|].
    specialize (IH (primaryStep lines init x)).
    assert (Hs := primaryStep_length lines init x). lia. }
  specialize (H (seq 0 (length lines)) []).
  rewrite length_seq in H. simpl in H. lia.
Qed.

Lemma fallbackPass_length lines :
  length (fallbackPass lines []) <= length lines.
Proof.
  unfold fallbackPass.
  apply (@fold_left_length jsstring fallbackStep).
  intros acc line.
  destruct (fallbackStep_cases acc line) as [->|(a & -> & _)]; [lia|].
  rewrite length_app. simpl. lia.
Qed.

Lemma split_length sep (s : jsstring) :
  length (split sep s) <= S (length s).
Proof.
  induction s as [|c s IH]; simpl; [lia|].
  destruct (cu_eqb c sep); simpl; [lia|].
  destruct (split sep s); simpl in *; lia.
Qed.

End ParserFacts.

(* ================================================================== *)
(** ** Lemmas on text, statistics and mail *)

Module TextFacts.

Lemma trimStart_split (s : jsstring) :
  exists ws, s = ws ++ trimStart s /\ allOf isWhiteSpace ws.
Proof.
  induction s as [|c s (ws & E & Hws)]; simpl.
  - exists []. split; [reflexivity|constructor].
  - destruct (isWhiteSpace c) eqn:Hc.
    + exists (c :: ws). split; [simpl; congruence|constructor; auto].
    + exists []. split; [reflexivity|constructor].
Qed.

Lemma trimStart_head (s : jsstring) c rest :
  trimStart s = c :: rest -> isWhiteSpace c = false.
Proof.
  induction s as [|d s IH]; simpl; [discriminate|].
  destruct (isWhiteSpace d) eqn:Hd; auto.
  intros E. inversion E; subst. exact Hd.
Qed.

Lemma trimEnd_split (s : jsstring) :
  exists ws, s = trimEnd s ++ ws /\ allOf isWhiteSpace ws.
Proof.
  unfold trimEnd. destruct (trimStart_split (rev s)) as (ws & E & Hws).
  exists (rev ws). split.
  - rewrite <- rev_app_distr, <- E, rev_involutive. reflexivity.
  - apply Forall_rev. exact Hws.
Qed.

Lemma trimEnd_last (s : jsstring) front c :
  trimEnd s = front ++ [c] -> isWhiteSpace c = false.
Proof.
  unfold trimEnd. intros E.
  apply (f_equal (@rev cu)) in E.
  rewrite rev_involutive, rev_app_distr in E. simpl in E.
  eapply trimStart_head; eauto.
Qed.

Lemma trim_head (s : jsstring) c rest :
  trim s = c :: rest -> isWhiteSpace c = false.
Proof.
  unfold trim. intros E.
  destruct (trimEnd_split (trimStart s)) as (ws & Es & _).
  rewrite E in Es. simpl in Es.
  eapply trimStart_head; eauto.
Qed.

Lemma trim_last (s : jsstring) front c :
  trim s = front ++ [c] -> isWhiteSpace c = false.
Proof. unfold trim. apply trimEnd_last. Qed.

(** The code units of [trim s] are code units of [s]. *)
Lemma trim_incl (s : jsstring) : incl (trim s) s.
Proof.
  unfold trim.
  destruct (trimStart_split s) as (ws & E & _).
  destruct (trimEnd_split (trimStart s)) as (ws' & E' & _).
  intros c Hc. rewrite E, E'. apply in_or_app. right.
  apply in_or_app. left. exact Hc.
Qed.

Lemma splitLines_nonblank text line :
  In line (splitLines text) -> trim line <> [].
Proof.
  unfold splitLines. intros H. apply filter_In in H. destruct H as [_ H].
  destruct (trim line); [discriminate|discriminate].
Qed.

Lemma split_no_sep sep (s : jsstring) :
  Forall (fun piece => ~ In sep piece) (split sep s).
Proof.
  induction s as [|c s IH]; simpl.
  - constructor; [intros []|constructor].
  - destruct (cu_eqb c sep) eqn:Hc.
    + constructor; [intros []|exact IH].
    + destruct (split sep s) as [|l ls]; inversion IH; subst.
      * constructor; [|constructor]. intros [->|[]].
        unfold cu_eqb in Hc. rewrite N.eqb_refl in Hc. discriminate.
      * constructor; auto. intros [->|Hin]; auto.
        unfold cu_eqb in Hc. rewrite N.eqb_refl in Hc. discriminate.
Qed.

Lemma split_hd_cons sep c (s : jsstring) :
  cu_eqb c sep = false -> hd [] (split sep (c :: s)) <> [].
Proof.
  intros Hc. simpl. rewrite Hc.
  destruct (split sep s); simpl; discriminate.
Qed.

Lemma pad_S w n : pad (S w) n = pad w (n / 10) ++ [(48 + n mod 10)%N].
Proof. reflexivity. Qed.

Lemma pad_head w n :
  exists c rest, pad (S w) n = c :: rest /\ isDigit c = true.
Proof.
  assert (H := pad_digits (S w) n).
  destruct (pad (S w) n) as [|c rest] eqn:E.
  - rewrite pad_S in E. destruct (pad w (n / 10)); discriminate.
  - inversion H; subst. eauto.
Qed.

Lemma today_nonempty now : today now <> [].
Proof.
  unfold today, toISOString, yearText.
  destruct ((0 <=? year now)%Z && (year now <=? 9999)%Z).
  - destruct (pad_head 3 (Z.to_N (year now))) as (c & rest & E & Hc).
    rewrite E. simpl app. apply split_hd_cons.
    apply digit_not; auto.
  - destruct (year now <? 0)%Z; simpl app; apply split_hd_cons; reflexivity.
Qed.

Lemma findDate_cases ls :
  findDate ls = [] \/
  exists line m, In line ls /\ search dateRe line = Some m /\
                 findDate ls = whole m.
Proof.
  induction ls as [|l ls IH]; simpl; auto.
  destruct (search dateRe l) as [m|] eqn:E.
  - right. exists l, m. auto.
  - destruct IH as [->|(line & m & Hin & Hm & ->)]; auto.
    right. exists line, m. auto.
Qed.

Lemma competitionName_extractLines now lines :
  competitionName (extractLines now lines) =
  orElse match lines with [] => [] | first :: _ => trim first end
         (str "Wrestling Competition").
Proof. reflexivity. Qed.

Lemma results_extractLines now lines :
  results (extractLines now lines) = lines.
Proof. reflexivity. Qed.

End TextFacts.

Module StatsFacts.
Import Num Storage.

Lemma whole_exact z : (Z.abs z <= maxExact)%Z -> whole z = Whole z.
Proof.
  intros H. unfold whole.
  destruct (Z.leb_spec (Z.abs z) maxExact); [reflexivity|lia].
Qed.

Lemma isInt32_bound v :
  isInt32 v -> (Z.abs (columnValue v) <= 2147483648)%Z.
Proof. destruct v; simpl; lia. Qed.

Lemma column_value v : isInt32 v -> column v = Whole (columnValue v).
Proof.
  intros H. destruct v as [z|]; [|reflexivity].
  unfold column. simpl. apply whole_exact. unfold maxExact. simpl in H. lia.
Qed.

Lemma sumOf_bound f performances :
  Forall (fun perf => isInt32 (f perf)) performances ->
  (Z.abs (sumOf f performances)
   <= 2147483648 * Z.of_nat (length performances))%Z.
Proof.
  induction 1 as [|perf l Hp _ IH]; simpl sumOf; simpl length.
  - simpl. lia.
  - apply isInt32_bound in Hp. lia.
Qed.

(** The loop from any exact totals, while the sums stay exact. *)
Lemma fold_exact performances :
  Forall isRow performances ->
  forall w l p,
    (Z.abs w + 2147483648 * Z.of_nat (length performances) <= maxExact)%Z ->
    (Z.abs l + 2147483648 * Z.of_nat (length performances) <= maxExact)%Z ->
    (Z.abs p + 2147483648 * Z.of_nat (length performances) <= maxExact)%Z ->
    fold_left
      (fun acc perf =>
         {| totalWins := add (totalWins acc) (column (wins perf));
            totalLosses := add (totalLosses acc) (column (losses perf));
            totalPins := add (totalPins acc) (column (pins perf)) |})
      performances
      {| totalWins := Whole w; totalLosses := Whole l; totalPins := Whole p |}
    = {| totalWins := Whole (w + sumOf wins performances);
         totalLosses := Whole (l + sumOf losses performances);
         totalPins := Whole (p + sumOf pins performances) |}.
Proof.
  induction 1 as [|perf rest (Hw & Hl & Hp) _ IH]; intros w l p Bw Bl Bp.
  - simpl. rewrite !Z.add_0_r. reflexivity.
  - simpl fold_left. simpl totalWins. simpl totalLosses. simpl totalPins.
    rewrite !column_value by assumption. simpl add.
    apply isInt32_bound in Hw, Hl, Hp.
    simpl length in Bw, Bl, Bp. rewrite Nat2Z.inj_succ in Bw, Bl, Bp.
    rewrite !whole_exact by lia.
    rewrite IH by lia. simpl sumOf.
    rewrite !Z.add_assoc. reflexivity.
Qed.

Lemma sumOf_permutation f p q :
  Permutation p q -> sumOf f p = sumOf f q.
Proof.
  induction 1; simpl; try lia.
Qed.

Lemma stats_exact performances :
  Forall isRow performances ->
  (Z.of_nat (length performances) <= 2097152)%Z ->
  getAthleteSeasonStats performances
  = {| totalWins := Whole (sumOf wins performances);
       totalLosses := Whole (sumOf losses performances);
       totalPins := Whole (sumOf pins performances) |}.
Proof.
  intros Hrows Hlen. unfold getAthleteSeasonStats.
  assert (B : (2147483648 * Z.of_nat (length performances) <= maxExact)%Z).
  { unfold maxExact. lia. }
  rewrite fold_exact; auto; simpl Z.abs; try lia.
Qed.

End StatsFacts.

Module PagesFacts.
Import Num Pages.

Lemma no_matches_total (athletes0 : list athlete) :
  Forall (fun a => wins a = None /\ losses a = None) athletes0 ->
  fold_left
    (fun sum athlete =>
       add (add sum (orZero (option_map ofNumber (wins athlete))))
           (orZero (option_map ofNumber (losses athlete))))
    athletes0 (Whole 0)
  = Whole 0.
Proof.
  induction 1 as [|a l [Hw Hl] _ IH]; simpl; auto.
  rewrite Hw, Hl. simpl. exact IH.
Qed.

Lemma getCompetitionStats_stored (r : ParsedCompetitionData) :
  getCompetitionStats (stored r)
  = {| athleteCount := length (athletes r);
       totalMatches :=
         fold_left
           (fun sum athlete =>
              add (add sum (orZero (option_map ofNumber (wins athlete))))
                  (orZero (option_map ofNumber (losses athlete))))
           (athletes r) (Whole 0) |}.
Proof. reflexivity. Qed.

End PagesFacts.

Module EmailFacts.
Import Effects EmailService.

Section Service.
Variable getTeam : jsstring -> outcome (option Team).
Variable getAthletesByTeam : jsstring -> outcome (list Athlete).
Variable getAthleteEmails : jsstring -> outcome (list AthleteEmail).
Variable updateNewsletter : jsstring -> updates -> outcome (option Newsletter).
Variable sendMail : mailOptions -> outcome unit.
Variable EMAIL_FROM EMAIL_USER : option jsstring.
Variable generateNewsletterHTML :
  Newsletter -> Team -> list Athlete -> outcome jsstring.
Variable undefinedRead : thrown.

Local Abbreviation addresses := (addressesOf getAthleteEmails).
Local Abbreviation options :=
  (newsletterOptions getAthleteEmails EMAIL_FROM EMAIL_USER).
Local Abbreviation optionsOfCustom :=
  (customOptions getAthleteEmails EMAIL_FROM EMAIL_USER).
Local Abbreviation runOfNewsletter :=
  (newsletterRun getTeam getAthletesByTeam getAthleteEmails updateNewsletter
                 sendMail EMAIL_FROM EMAIL_USER).
Local Abbreviation runOfCustom :=
  (customRun getTeam getAthletesByTeam getAthleteEmails sendMail
             EMAIL_FROM EMAIL_USER).
Local Abbreviation sendNewsletter' :=
  (sendNewsletter getTeam getAthletesByTeam getAthleteEmails updateNewsletter
                  sendMail EMAIL_FROM EMAIL_USER generateNewsletterHTML
                  undefinedRead).
Local Abbreviation sendCustomEmail' :=
  (sendCustomEmail getTeam getAthletesByTeam getAthleteEmails sendMail
                   EMAIL_FROM EMAIL_USER).

Lemma collectEmails_run athletes :
  forall allEmails,
    trace (collectEmails getAthleteEmails athletes allEmails) = [] /\
    forall found,
      result (collectEmails getAthleteEmails athletes allEmails)
      = Returned found ->
      found = allEmails ++ addresses athletes.
Proof.
  induction athletes as [|a rest IH]; intros allEmails; simpl.
  - split; [reflexivity|]. intros found H. inversion H.
    rewrite app_nil_r. reflexivity.
  - unfold bind, lift.
    destruct (getAthleteEmails (athleteId a)) as [emails|error]; simpl.
    + destruct (IH (allEmails ++ map email emails)) as [Ht Hr].
      destruct (collectEmails getAthleteEmails rest
                              (allEmails ++ map email emails)) as [t r].
      simpl in *. subst t. split; [reflexivity|].
      intros found H. rewrite (Hr found H), app_assoc. reflexivity.
    + split; [reflexivity|]. intros found H. discriminate.
Qed.

Lemma sendNewsletter_run newsletter :
  runOfNewsletter newsletter (sendNewsletter' (Some newsletter)).
Proof.
  unfold sendNewsletter, bind, lift, throw, tryCatch, call, ret.
  destruct (getTeam (teamId newsletter)) as [[team|]|cause] eqn:Ht;
    simpl; try apply StoppedEarly.
  destruct (getAthletesByTeam (teamId newsletter)) as [athletes|cause] eqn:Ha;
    simpl; try apply StoppedEarly.
  destruct (collectEmails_run athletes []) as [Htr Hres].
  destruct (collectEmails getAthleteEmails athletes []) as [t [found|cause]];
    simpl in *; subst t; simpl; try apply StoppedEarly.
  rewrite (Hres found eq_refl). simpl. clear Hres found.
  remember (length (addresses athletes)) as n eqn:Hn.
  destruct (Nat.eqb_spec n 0) as [Hz|Hz]; simpl; try apply StoppedEarly.
  assert (Hne : addresses athletes <> []).
  { intros E. rewrite E in Hn. simpl in Hn. contradiction. }
  destruct (generateNewsletterHTML newsletter team athletes)
    as [htmlContent|cause] eqn:Hh; simpl; try apply StoppedEarly.
  change {| from := orUnset EMAIL_FROM EMAIL_USER;
            bcc := addresses athletes;
            mailSubject := subject newsletter;
            html := htmlContent |}
    with (options newsletter athletes htmlContent).
  destruct (sendMail (options newsletter athletes htmlContent))
    as [[]|cause] eqn:Hs; simpl.
  - generalize (@MailSent getTeam getAthletesByTeam getAthleteEmails
                          updateNewsletter sendMail EMAIL_FROM EMAIL_USER
                          newsletter team athletes htmlContent Ht Ha Hne Hs).
    rewrite <- Hn.
    destruct (updateNewsletter (id newsletter) (RecipientCount n))
      as [row|cause]; simpl; auto.
  - eapply MailFailed; eauto.
Qed.

Lemma sendCustomEmail_run teamId subject content :
  runOfCustom teamId subject content
              (sendCustomEmail' teamId subject content).
Proof.
  unfold sendCustomEmail, bind, lift, throw, tryCatch, call, ret.
  destruct (getTeam teamId) as [[team|]|cause] eqn:Ht;
    simpl; try apply CustomStopped.
  destruct (getAthletesByTeam teamId) as [athletes|cause] eqn:Ha;
    simpl; try apply CustomStopped.
  destruct (collectEmails_run athletes []) as [Htr Hres].
  destruct (collectEmails getAthleteEmails athletes []) as [t [found|cause]];
    simpl in *; subst t; simpl; try apply CustomStopped.
  rewrite (Hres found eq_refl). simpl. clear Hres found.
  remember (length (addresses athletes)) as n eqn:Hn.
  destruct (Nat.eqb_spec n 0) as [Hz|Hz]; simpl; try apply CustomStopped.
  assert (Hne : addresses athletes <> []).
  { intros E. rewrite E in Hn. simpl in Hn. contradiction. }
  change {| from := orUnset EMAIL_FROM EMAIL_USER;
            bcc := addresses athletes;
            mailSubject := subject;
            html := customEmailHtml team content |}
    with (optionsOfCustom team athletes subject content).
  generalize (@CustomMailed getTeam getAthletesByTeam getAthleteEmails
                            sendMail EMAIL_FROM EMAIL_USER
                            teamId subject content team athletes Ht Ha Hne).
  destruct (sendMail (optionsOfCustom team athletes subject content))
    as [[]|cause]; simpl; auto.
Qed.

Lemma collectEmails_none athletes :
  Forall (fun athlete => getAthleteEmails (athleteId athlete) = Returned [])
         athletes ->
  forall allEmails,
    collectEmails getAthleteEmails athletes allEmails
    = ([], Returned allEmails).
Proof.
  induction 1 as [|a l Ha _ IH]; intros allEmails; simpl; auto.
  unfold bind, lift. rewrite Ha. simpl. rewrite app_nil_r, IH. reflexivity.
Qed.

End Service.
End EmailFacts.

(* ================================================================== *)
(** ** Further properties: the extraction *)

Module ParserProperties.
Import Anchoring MoreSamples ParserFacts TextFacts.

(** Every record of the primary pass is anchored: its weight class is
    the one a marker line captured, and its name is the one captured on
    one of the nine lines after that marker. *)
Theorem primary_records_are_anchored (lines : list jsstring) :
  Forall (anchored lines) (primaryPass lines).
Proof.
  unfold primaryPass. apply fold_left_keeps; auto.
  intros acc i Hacc. unfold primaryStep.
  destruct (search weightRe (lineAt lines i)) as [wm|] eqn:Hw; auto.
  apply fold_left_keeps_in; auto.
  intros acc' j Hj Hacc'. apply windowIndices_in in Hj.
  destruct (scanResultLine_source
              (group 1 (groups wm) ++ str " lbs") acc' (lineAt lines j))
    as [->|(a & nm & -> & Hn & Hname & Hwc)]; auto.
  apply Forall_app. split; auto. constructor; [|constructor].
  exists i, j, wm, nm. auto.
Qed.

(** No anchored name is lost: when line [i] is a weight marker and line
    [j], one of the nine lines after it, holds a name, the primary pass
    returns a record with that name and that weight class. *)
Theorem anchored_names_are_recorded
        (lines : list jsstring) (i j : nat)
        (weightMatch nameMatch : matchResult) :
  i < j < Nat.min (i + 10) (length lines) ->
  search weightRe (lineAt lines i) = Some weightMatch ->
  search nameRe (lineAt lines j) = Some nameMatch ->
  exists a,
    In a (primaryPass lines) /\
    name a = group 1 (groups nameMatch) /\
    weightClass a = group 1 (groups weightMatch) ++ str " lbs".
Proof.
  intros Hij Hw Hn. unfold primaryPass.
  apply (@fold_left_reaches nat
           (fun acc => exists a, In a acc /\
                         name a = group 1 (groups nameMatch) /\
                         weightClass a
                         = group 1 (groups weightMatch) ++ str " lbs")
           (primaryStep lines) i).
  - intros acc y. apply primaryStep_grows.
  - intros acc acc' Hincl (a & Hin & H). exists a. split; auto.
  - intros acc. unfold primaryStep. rewrite Hw.
    apply (@fold_left_reaches nat
             (fun acc => exists a, In a acc /\
                           name a = group 1 (groups nameMatch) /\
                           weightClass a
                           = group 1 (groups weightMatch) ++ str " lbs")
             (fun acc j =>
                scanResultLine (group 1 (groups weightMatch) ++ str " lbs")
                               acc (lineAt lines j)) j).
    + intros acc0 y. apply scanResultLine_grows.
    + intros acc0 acc' Hincl (a & Hin & H). exists a. split; auto.
    + intros acc0. apply scanResultLine_reaches. exact Hn.
    + apply windowIndices_in. exact Hij.
  - apply in_seq. lia.
Qed.

Lemma anchored_names_are_recorded_witness :
  exists a,
    In a (primaryPass markerAndName) /\
    name a = group 1 (groups nameMatchOfJohn) /\
    weightClass a = group 1 (groups markerMatch) ++ str " lbs".
Proof.
  apply (@anchored_names_are_recorded markerAndName 0 1
                                      markerMatch nameMatchOfJohn).
  - vm_compute. lia.
  - vm_compute. reflexivity.
  - vm_compute. reflexivity.
Defined.

(** The competition name is never empty and neither starts nor ends
    with whitespace, and the date is never empty. *)
Theorem name_and_date_are_never_empty (now : Date) (text : jsstring) :
  let r := extract now text in
  competitionName r <> [] /\
  (forall c rest, competitionName r = c :: rest -> isWhiteSpace c = false) /\
  (forall front c,
      competitionName r = front ++ [c] -> isWhiteSpace c = false) /\
  date r <> [].
Proof.
  intros r. subst r. unfold extract.
  rewrite competitionName_extractLines, date_extractLines.
  split; [|split; [|split]].
  - destruct (splitLines text) as [|l ls] eqn:E; [discriminate|].
    assert (H : trim l <> []).
    { apply (@splitLines_nonblank text). rewrite E. left. reflexivity. }
    rewrite orElse_nonempty; auto.
  - destruct (splitLines text) as [|l ls] eqn:E.
    + simpl. intros c rest H. inversion H. reflexivity.
    + assert (H : trim l <> []).
      { apply (@splitLines_nonblank text). rewrite E. left. reflexivity. }
      rewrite orElse_nonempty; auto. intros c rest. apply trim_head.
  - destruct (splitLines text) as [|l ls] eqn:E.
    + simpl. intros front c H.
      apply (f_equal (@rev cu)) in H. rewrite rev_app_distr in H.
      vm_compute in H. inversion H. reflexivity.
    + assert (H : trim l <> []).
      { apply (@splitLines_nonblank text). rewrite E. left. reflexivity. }
      rewrite orElse_nonempty; auto. intros front c. apply trim_last.
  - destruct (findDate_cases (firstn 10 (splitLines text)))
      as [->|(line & m & _ & Hm & ->)].
    + apply today_nonempty.
    + rewrite orElse_nonempty; eapply search_dateRe_nonempty; eauto.
Qed.

(** Every raw line kept in the result is one of the pieces of the text
    between line feeds, holds no line feed, and holds at least one code
    unit that is not whitespace. *)
Theorem raw_lines_are_nonblank_pieces (now : Date) (text : jsstring) :
  Forall (fun line =>
            Exists (fun c => isWhiteSpace c = false) line /\
            ~ In (chr "010") line /\
            In line (split (chr "010") text))
         (results (extract now text)).
Proof.
  unfold extract. rewrite results_extractLines.
  apply Forall_forall. intros line Hin.
  assert (Hnb := splitLines_nonblank _ _ Hin).
  unfold splitLines in Hin. apply filter_In in Hin. destruct Hin as [Hin _].
  split; [|split; auto].
  - destruct (trim line) as [|c rest] eqn:E; [contradiction|].
    apply Exists_exists. exists c. split.
    + apply (@trim_incl line). rewrite E. left. reflexivity.
    + eapply trim_head; eauto.
  - assert (H := split_no_sep (chr "010") text).
    rewrite Forall_forall in H. apply H. exact Hin.
Qed.

(** The result holds at most nine records per raw line, and at most one
    raw line more than the text has code units. *)
Theorem athletes_are_at_most_nine_per_line (now : Date) (text : jsstring) :
  let r := extract now text in
  length (athletes r) <= 9 * length (results r) /\
  length (results r) <= S (length text).
Proof.
  intros r. subst r. unfold extract.
  rewrite athletes_extractLines, results_extractLines. split.
  - destruct (primaryPass (splitLines text)) as [|a0 rest] eqn:E.
    + assert (H := fallbackPass_length (splitLines text)). lia.
    + rewrite <- E. apply primaryPass_length.
  - unfold splitLines.
    eapply Nat.le_trans; [apply filter_length_le|apply split_length].
Qed.

End ParserProperties.

Module CleanupProperties.
Import Effects Cleanup.

(** [cleanupFile] never throws, whatever [unlinkSync] does, and calls
    [unlinkSync], once and on the given path, exactly when the path
    exists. *)
Theorem cleanupFile_never_throws
        (existsSync : jsstring -> bool) (unlinkSync : jsstring -> outcome unit)
        (filePath : jsstring) :
  let run := cleanupFile existsSync unlinkSync filePath in
  result run = Returned tt /\
  trace run = (if existsSync filePath then [UnlinkSync filePath] else []).
Proof.
  intros run. subst run. unfold cleanupFile.
  destruct (existsSync filePath); [|split; reflexivity].
  unfold call, tryCatch, ret, result, trace. simpl.
  destruct (unlinkSync filePath) as [[]|error]; simpl; split;
    try reflexivity.
Qed.

End CleanupProperties.

(* ================================================================== *)
(** ** Further properties: statistics and previews *)

Module StorageProperties.
Import Num Storage StatsFacts MoreSamples.

(** For up to 2^21 rows of 32-bit integers, the season statistics are
    the exact integer sums of the three columns, a null counting as 0:
    no Number in the loop leaves the range in which integers are exact. *)
Theorem season_stats_are_exact_sums (performances : list AthletePerformance) :
  Forall isRow performances ->
  (Z.of_nat (length performances) <= 2097152)%Z ->
  getAthleteSeasonStats performances
  = {| totalWins := Whole (sumOf wins performances);
       totalLosses := Whole (sumOf losses performances);
       totalPins := Whole (sumOf pins performances) |}.
Proof. intros Hrows Hlen. apply stats_exact; assumption. Qed.

Lemma season_stats_are_exact_sums_witness :
  getAthleteSeasonStats sampleRows
  = {| totalWins := Whole (sumOf wins sampleRows);
       totalLosses := Whole (sumOf losses sampleRows);
       totalPins := Whole (sumOf pins sampleRows) |}.
Proof.
  apply (@season_stats_are_exact_sums sampleRows).
  - repeat (constructor; [repeat split; simpl; try lia; exact I|]).
    constructor.
  - simpl. lia.
Defined.

(** Under the same bounds the season statistics do not depend on the
    order in which the query returns the rows. *)
Theorem season_stats_ignore_row_order
        (performances reordered : list AthletePerformance) :
  Permutation performances reordered ->
  Forall isRow performances ->
  (Z.of_nat (length performances) <= 2097152)%Z ->
  getAthleteSeasonStats reordered = getAthleteSeasonStats performances.
Proof.
  intros Hperm Hrows Hlen.
  rewrite (stats_exact Hrows Hlen).
  rewrite stats_exact.
  - rewrite !(sumOf_permutation _ Hperm). reflexivity.
  - eapply Permutation_Forall; eauto.
  - rewrite <- (Permutation_length Hperm). exact Hlen.
Qed.

Lemma season_stats_ignore_row_order_witness :
  getAthleteSeasonStats (rev sampleRows) = getAthleteSeasonStats sampleRows.
Proof.
  apply (@season_stats_ignore_row_order sampleRows (rev sampleRows)).
  - apply Permutation_rev.
  - repeat (constructor; [repeat split; simpl; try lia; exact I|]).
    constructor.
  - simpl. lia.
Defined.

End StorageProperties.

Module PagesProperties.
Import Num Pages PagesFacts.

(** A sheet the primary pass finds nothing in is shown with the number
    of athletes the fallback found and with 0 matches: fallback records
    carry no wins and no losses. *)
Theorem fallback_sheets_show_no_matches (now : Date) (text : jsstring) :
  primaryPass (splitLines text) = [] ->
  getCompetitionStats (stored (extract now text))
  = {| athleteCount := length (fallbackPass (splitLines text) []);
       totalMatches := Whole 0 |}.
Proof.
  intros He.
  destruct (extract_athletes_cases now text)
    as [(_ & Ha & Hf)|(Hne & _)]; [|contradiction].
  rewrite getCompetitionStats_stored, no_matches_total.
  - rewrite Ha. reflexivity.
  - eapply Forall_impl; [|exact Hf].
    intros a (_ & _ & Hw & Hl & _). auto.
Qed.

Lemma fallback_sheets_show_no_matches_witness :
  getCompetitionStats (stored (extract clockA fallbackSheet))
  = {| athleteCount := length (fallbackPass (splitLines fallbackSheet) []);
       totalMatches := Whole 0 |}.
Proof.
  apply (@fallback_sheets_show_no_matches clockA fallbackSheet).
  vm_compute. reflexivity.
Defined.

(** A message preview is never empty and never longer than 103 code
    units: a content of 1 to 100 units is shown whole, a longer one as
    its first 100 units followed by three dots. *)
Theorem message_preview_is_bounded (content : jsstring) :
  let preview := getMessagePreview content in
  preview <> [] /\
  length preview <= 103 /\
  (1 <= length content <= 100 -> preview = content) /\
  (100 < length content ->
   preview = firstn 100 content ++ str "..." /\ length preview = 103).
Proof.
  intros preview. subst preview. unfold getMessagePreview.
  destruct content as [|c rest] eqn:E.
  - split; [vm_compute; discriminate|].
    split; [vm_compute; lia|].
    split; simpl; intros; lia.
  - rewrite <- E. assert (Hlen : 1 <= length content) by (subst; simpl; lia).
    clear E. destruct (Nat.ltb_spec 100 (length content)) as [Hlong|Hshort].
    + assert (L : length (firstn 100 content ++ str "...") = 103).
      { rewrite length_app, length_firstn.
        change (length (str "...")) with 3. lia. }
      repeat split; auto; try lia.
      destruct (firstn 100 content); discriminate.
    + repeat split; auto; try lia.
      destruct content; simpl in *; [lia|discriminate].
Qed.

End PagesProperties.

(* ================================================================== *)
(** ** Further properties: authentication *)

Module AuthProperties.
Import Auth MoreSamples.

Lemma testLogin_iff email password :
  jsstring_eqb email (str "test@g.com") &&
  jsstring_eqb password (str "asdf123") = true
  <-> isTestLogin email password.
Proof.
  unfold isTestLogin. rewrite andb_true_iff, !jsstring_eqb_eq. tauto.
Qed.

Section Strategy.
Variable getUserByEmail : jsstring -> outcome (option userRow).
Variable getUser : jsstring -> outcome (option User).
Variable bcryptCompare : jsstring -> jsstring -> outcome bool.

(** The strategy accepts a login in exactly two cases: the test
    credentials, which give the test user whatever the storage holds;
    or an account found by its email whose stored hash is present, not
    empty and accepted by bcrypt for the password, which gives that row
    without its password. *)
Theorem login_succeeds_exactly_when (email password : jsstring) (u : User) :
  verify getUserByEmail bcryptCompare email password = DoneUser u
  <->
  (isTestLogin email password /\ u = testUser) \/
  (~ isTestLogin email password /\
   exists row hash,
     getUserByEmail email = Returned (Some row) /\
     Auth.password row = Some hash /\ hash <> [] /\
     bcryptCompare password hash = Returned true /\
     u = userWithoutPassword row).
Proof.
  unfold verify.
  destruct (jsstring_eqb email (str "test@g.com") &&
            jsstring_eqb password (str "asdf123")) eqn:Ht.
  - apply testLogin_iff in Ht. split.
    + intros H. inversion H. auto.
    + intros [[_ ->]|[Hn _]]; [reflexivity|contradiction].
  - assert (Hn : ~ isTestLogin email password).
    { intros H. apply testLogin_iff in H. congruence. }
    split.
    + intros H. right. split; [exact Hn|].
      destruct (getUserByEmail email) as [[row|]|err]; try discriminate.
      destruct (Auth.password row) as [[|c hash]|] eqn:Hp; try discriminate.
      destruct (bcryptCompare password (c :: hash)) as [[|]|err] eqn:Hb;
        try discriminate.
      inversion H. exists row, (c :: hash).
      repeat split; auto. discriminate.
    + intros [[Ht' _]|(_ & row & hash & -> & -> & Hh & Hb & ->)];
        [contradiction|].
      destruct hash as [|c hash]; [contradiction|].
      rewrite Hb. reflexivity.
Qed.

(** For any other than the test credentials: the answer is
    "Incorrect email." exactly when no account has the email; an account
    without a password, or with an empty one, is answered
    "Incorrect password."; and a storage error is handed to [done]
    unchanged. *)
Theorem login_failures (email password : jsstring) :
  ~ isTestLogin email password ->
  (verify getUserByEmail bcryptCompare email password
   = DoneFalse (str "Incorrect email.")
   <-> getUserByEmail email = Returned None) /\
  (forall row,
      getUserByEmail email = Returned (Some row) ->
      Auth.password row = None \/ Auth.password row = Some [] ->
      verify getUserByEmail bcryptCompare email password
      = DoneFalse (str "Incorrect password.")) /\
  (forall err,
      getUserByEmail email = Threw err ->
      verify getUserByEmail bcryptCompare email password = DoneError err).
Proof.
  intros Hn. unfold verify.
  destruct (jsstring_eqb email (str "test@g.com") &&
            jsstring_eqb password (str "asdf123")) eqn:Ht.
  { apply testLogin_iff in Ht. contradiction. }
  split; [|split].
  - split.
    + destruct (getUserByEmail email) as [[row|]|err]; auto; try discriminate.
      destruct (Auth.password row) as [[|c hash]|]; try discriminate.
      destruct (bcryptCompare password (c :: hash)) as [[|]|]; discriminate.
    + intros ->. reflexivity.
  - intros row -> [-> | ->]; reflexivity.
  - intros err ->. reflexivity.
Qed.

(** What a session stores gives the user back: for a stored user whose
    id is not the test id, [deserializeUser] of [serializeUser] returns
    that user; for the test id it returns the test user, whoever is
    stored under it. *)
Theorem session_round_trip (u : User) :
  getUser (id u) = Returned (Some u) ->
  (id u <> str "test-user-id" ->
   deserializeUser getUser (serializeUser u) = Deserialized (Some u)) /\
  (id u = str "test-user-id" ->
   deserializeUser getUser (serializeUser u) = Deserialized (Some testUser)).
Proof.
  intros Hget. unfold deserializeUser, serializeUser. split.
  - intros Hid.
    destruct (jsstring_eqb (id u) (str "test-user-id")) eqn:E.
    + apply jsstring_eqb_eq in E. contradiction.
    + rewrite Hget. reflexivity.
  - intros Hid. rewrite Hid. reflexivity.
Qed.
End Strategy.

Lemma login_failures_witness :
  verify nobody neverMatches (str "coach@school.org") (str "secret")
  = DoneFalse (str "Incorrect email.")
  <-> nobody (str "coach@school.org") = Returned None.
Proof.
  apply (@login_failures nobody neverMatches
                         (str "coach@school.org") (str "secret")).
  intros [H _]. vm_compute in H. discriminate H.
Defined.

Lemma session_round_trip_witness :
  deserializeUser onlySampleUser (serializeUser sampleUser)
  = Deserialized (Some sampleUser).
Proof.
  apply (@session_round_trip onlySampleUser sampleUser eq_refl).
  intros H. vm_compute in H. discriminate H.
Defined.

End AuthProperties.

(* ================================================================== *)
(** ** Further properties: the mail service *)

Module EmailProperties.
Import Effects EmailService EmailFacts MoreSamples.

Section Service.
Variable getTeam : jsstring -> outcome (option Team).
Variable getAthletesByTeam : jsstring -> outcome (list Athlete).
Variable getAthleteEmails : jsstring -> outcome (list AthleteEmail).
Variable updateNewsletter : jsstring -> updates -> outcome (option Newsletter).
Variable sendMail : mailOptions -> outcome unit.
Variable EMAIL_FROM EMAIL_USER : option jsstring.
Variable generateNewsletterHTML :
  Newsletter -> Team -> list Athlete -> outcome jsstring.
Variable undefinedRead : thrown.

Local Abbreviation sendNewsletter' :=
  (sendNewsletter getTeam getAthletesByTeam getAthleteEmails updateNewsletter
                  sendMail EMAIL_FROM EMAIL_USER generateNewsletterHTML
                  undefinedRead).
Local Abbreviation sendCustomEmail' :=
  (sendCustomEmail getTeam getAthletesByTeam getAthleteEmails sendMail
                   EMAIL_FROM EMAIL_USER).
Local Abbreviation addresses := (addressesOf getAthleteEmails).

(** [sendNewsletter] hands the transport at most one mail; that mail
    carries the newsletter's subject and goes, in blind copy, to every
    address on file for the team's athletes, of which there is at least
    one. *)
Theorem newsletter_goes_once_to_every_address (newsletter : Newsletter) :
  let mails := mailsOf (trace (sendNewsletter' (Some newsletter))) in
  length mails <= 1 /\
  Forall (fun o =>
            bcc o <> [] /\
            mailSubject o = subject newsletter /\
            from o = orUnset EMAIL_FROM EMAIL_USER /\
            exists athletes,
              getAthletesByTeam (teamId newsletter) = Returned athletes /\
              bcc o = addresses athletes)
         mails.
Proof.
  intros mails. subst mails.
  destruct (sendNewsletter_run getTeam getAthletesByTeam getAthleteEmails
              updateNewsletter sendMail EMAIL_FROM EMAIL_USER
              generateNewsletterHTML undefinedRead newsletter)
    as [cause|team athletes htmlContent cause Ht Ha Hne Hs
        |team athletes htmlContent Ht Ha Hne Hs]; simpl.
  - split; [lia|constructor].
  - split; [lia|]. constructor; [|constructor]. simpl. eauto 8.
  - split; [lia|]. constructor; [|constructor]. simpl. eauto 8.
Qed.

(** [sendNewsletter] writes to the newsletter only after a mail that
    the transport accepted, and what it writes is the number of
    addresses that mail went to, on the row of the newsletter sent. *)
Theorem recipient_count_follows_the_mail (newsletter : Newsletter) :
  Forall (fun e =>
            match e with
            | SendMail _ => True
            | UpdateNewsletter updated changes =>
                exists o,
                  In (SendMail o) (trace (sendNewsletter' (Some newsletter)))
                  /\ sendMail o = Returned tt
                  /\ updated = id newsletter
                  /\ changes = RecipientCount (length (bcc o))
            end)
         (trace (sendNewsletter' (Some newsletter))).
Proof.
  destruct (sendNewsletter_run getTeam getAthletesByTeam getAthleteEmails
              updateNewsletter sendMail EMAIL_FROM EMAIL_USER
              generateNewsletterHTML undefinedRead newsletter)
    as [cause|team athletes htmlContent cause Ht Ha Hne Hs
        |team athletes htmlContent Ht Ha Hne Hs]; simpl.
  - constructor.
  - repeat constructor.
  - constructor; [exact I|]. constructor; [|constructor].
    eexists. split; [left; reflexivity|]. auto.
Qed.

(** When [sendNewsletter] returns, exactly one mail was handed to the
    transport and accepted, to at least one address, and the recipient
    count was written after it. *)
Theorem sent_newsletter_was_delivered_and_counted (newsletter : Newsletter) :
  result (sendNewsletter' (Some newsletter)) = Returned tt ->
  exists o,
    trace (sendNewsletter' (Some newsletter))
    = [SendMail o;
       UpdateNewsletter (id newsletter) (RecipientCount (length (bcc o)))] /\
    bcc o <> [] /\
    sendMail o = Returned tt.
Proof.
  destruct (sendNewsletter_run getTeam getAthletesByTeam getAthleteEmails
              updateNewsletter sendMail EMAIL_FROM EMAIL_USER
              generateNewsletterHTML undefinedRead newsletter)
    as [cause|team athletes htmlContent cause Ht Ha Hne Hs
        |team athletes htmlContent Ht Ha Hne Hs]; simpl;
    try discriminate.
  intros _.
  exists (newsletterOptions getAthleteEmails EMAIL_FROM EMAIL_USER
                            newsletter athletes htmlContent).
  split; [reflexivity|]. auto.
Qed.

(** A newsletter that went out is still reported as failed when the
    write of the recipient count fails: the caller gets the wrapped
    storage error although the transport accepted the mail. *)
Theorem delivered_newsletter_may_still_fail
        (newsletter : Newsletter) (o : mailOptions) (cause : thrown) :
  In (SendMail o) (trace (sendNewsletter' (Some newsletter))) ->
  sendMail o = Returned tt ->
  updateNewsletter (id newsletter) (RecipientCount (length (bcc o)))
  = Threw cause ->
  result (sendNewsletter' (Some newsletter))
  = Threw (wrapError (str "Failed to send newsletter: ") cause).
Proof.
  destruct (sendNewsletter_run getTeam getAthletesByTeam getAthleteEmails
              updateNewsletter sendMail EMAIL_FROM EMAIL_USER
              generateNewsletterHTML undefinedRead newsletter)
    as [cause'|team athletes htmlContent cause' Ht Ha Hne Hs
        |team athletes htmlContent Ht Ha Hne Hs]; simpl.
  - intros [].
  - intros [E|[]] Hok. inversion E; subst. congruence.
  - intros [E|[E|[]]] Hok Hup; [|discriminate].
    inversion E; subst. simpl in Hup. rewrite Hup. reflexivity.
Qed.

(** Without a team, or without any address on file, nothing is sent
    and nothing written, and the error says which; and every error
    [sendNewsletter] throws carries the prefix
    "Failed to send newsletter: ". *)
Theorem nothing_is_sent_without_team_or_addresses (newsletter : Newsletter) :
  (getTeam (teamId newsletter) = Returned None ->
   sendNewsletter' (Some newsletter)
   = ([], Threw (ErrorObject
                   (str "Failed to send newsletter: Team not found")))) /\
  (forall team athletes,
      getTeam (teamId newsletter) = Returned (Some team) ->
      getAthletesByTeam (teamId newsletter) = Returned athletes ->
      Forall (fun athlete =>
                getAthleteEmails (athleteId athlete) = Returned [])
             athletes ->
      sendNewsletter' (Some newsletter)
      = ([], Threw (ErrorObject
                      (str "Failed to send newsletter: No email addresses found for this team")))) /\
  (forall error,
      result (sendNewsletter' (Some newsletter)) = Threw error ->
      exists cause,
        error = wrapError (str "Failed to send newsletter: ") cause).
Proof.
  split; [|split].
  - intros Ht. unfold sendNewsletter, bind, lift, throw, tryCatch.
    rewrite Ht. reflexivity.
  - intros team athletes Ht Ha Hnone.
    unfold sendNewsletter, bind, lift, throw, tryCatch.
    rewrite Ht, Ha. simpl. rewrite (@collectEmails_none getAthleteEmails athletes Hnone).
    reflexivity.
  - intros error.
    destruct (sendNewsletter_run getTeam getAthletesByTeam getAthleteEmails
                updateNewsletter sendMail EMAIL_FROM EMAIL_USER
                generateNewsletterHTML undefinedRead newsletter)
      as [cause|team athletes htmlContent cause Ht Ha Hne Hs
          |team athletes htmlContent Ht Ha Hne Hs]; simpl.
    + intros E. inversion E. eauto.
    + intros E. inversion E. eauto.
    + destruct (updateNewsletter _ _); intros E; inversion E. eauto.
Qed.

(** [sendCustomEmail] either sends nothing and throws an error with
    the prefix "Failed to send custom email: ", or hands the transport
    exactly one mail, with the given subject and the templated content,
    in blind copy to every address on file (at least one); it returns
    exactly when the transport accepted that mail. *)
Theorem custom_email_goes_once_to_every_address
        (teamId subject content : jsstring) :
  let run := sendCustomEmail' teamId subject content in
  (trace run = [] /\
   exists cause,
     result run
     = Threw (wrapError (str "Failed to send custom email: ") cause)) \/
  (exists team athletes o,
      getTeam teamId = Returned (Some team) /\
      getAthletesByTeam teamId = Returned athletes /\
      trace run = [SendMail o] /\
      bcc o = addresses athletes /\ bcc o <> [] /\
      mailSubject o = subject /\
      html o = customEmailHtml team content /\
      (result run = Returned tt <-> sendMail o = Returned tt)).
Proof.
  intros run. subst run.
  destruct (sendCustomEmail_run getTeam getAthletesByTeam getAthleteEmails
              sendMail EMAIL_FROM EMAIL_USER teamId subject content)
    as [cause|team athletes Ht Ha Hne].
  - left. simpl. eauto.
  - right. exists team, athletes.
    exists (customOptions getAthleteEmails EMAIL_FROM EMAIL_USER
                          team athletes subject content).
    simpl. repeat split; auto.
    + destruct (sendMail _) as [[]|]; [reflexivity|discriminate].
    + intros ->. reflexivity.
Qed.
End Service.

(** The content of a custom mail holds no line feed once its line
    feeds are replaced, is unchanged when it had none, and grows by
    three code units per line feed. *)
Theorem line_feeds_become_breaks (content : jsstring) :
  ~ In (chr "010") (replaceLineFeeds content) /\
  (~ In (chr "010") content -> replaceLineFeeds content = content) /\
  length (replaceLineFeeds content)
  = length content + 3 * count_occ N.eq_dec content (chr "010").
Proof.
  induction content as [|c rest (Hno & Hid & Hlen)].
  - simpl. split; [intros []|]. split; auto.
  - change (replaceLineFeeds (c :: rest))
      with (if cu_eqb c (chr "010")
            then str "<br>" ++ replaceLineFeeds rest
            else c :: replaceLineFeeds rest).
    unfold cu_eqb. destruct (N.eqb_spec c (chr "010")) as [->|Hc].
    + split; [|split].
      * intros H. apply in_app_or in H. destruct H as [H|H]; auto.
        vm_compute in H. intuition discriminate.
      * intros H. exfalso. apply H. left. reflexivity.
      * rewrite length_app, Hlen. change (length (str "<br>")) with 4.
        rewrite count_occ_cons_eq by reflexivity. simpl length.
        unfold cu in *. lia.
    + split; [|split].
      * intros [H|H]; [congruence|contradiction].
      * intros H. f_equal. apply Hid. intros Hin. apply H. right. exact Hin.
      * rewrite count_occ_cons_neq by exact Hc.
        simpl length. rewrite Hlen. reflexivity.
Qed.

Lemma sent_newsletter_was_delivered_and_counted_witness :
  exists o,
    trace (sendNewsletter teamFound oneAthlete oneAddress updateWorks
                          mailGoesOut None None pageRendered databaseDown
                          (Some sampleNewsletter))
    = [SendMail o;
       UpdateNewsletter (id sampleNewsletter)
                        (RecipientCount (length (bcc o)))] /\
    bcc o <> [] /\
    mailGoesOut o = Returned tt.
Proof.
  apply (@sent_newsletter_was_delivered_and_counted
           teamFound oneAthlete oneAddress updateWorks mailGoesOut None None
           pageRendered databaseDown sampleNewsletter).
  vm_compute. reflexivity.
Defined.

Lemma delivered_newsletter_may_still_fail_witness :
  result (sendNewsletter teamFound oneAthlete oneAddress updateFails
                         mailGoesOut None None pageRendered databaseDown
                         (Some sampleNewsletter))
  = Threw (wrapError (str "Failed to send newsletter: ") databaseDown).
Proof.
  apply (@delivered_newsletter_may_still_fail
           teamFound oneAthlete oneAddress updateFails mailGoesOut None None
           pageRendered databaseDown sampleNewsletter sampleMail
           databaseDown).
  - vm_compute. left. reflexivity.
  - reflexivity.
  - reflexivity.
Defined.

End EmailProperties.

(* ================================================================== *)
(** ** Further properties: the route handlers *)

Module RoutesProperties.
Import Effects Routes MoreSamples.

Section Handlers.
Variable Body Validated Competition : Type.
Variable Buffer : Type.
Variable readFileSync : jsstring -> outcome Buffer.
Variable pdf : Buffer -> outcome jsstring.
Variable schemaParse : candidate Body -> outcome Validated.
Variable createCompetition : Validated -> outcome Competition.

Local Abbreviation postCompetition' :=
  (postCompetition readFileSync pdf schemaParse createCompetition).

(** When the uploaded document cannot be read or converted, the
    handler answers 400 with the message "Failed to create competition"
    and the parser's error text, and creates no competition. *)
Theorem unreadable_upload_is_answered_with_400
        (now : Date) (file : File) (reqBody : Body) (teamIdParam : jsstring)
        (cause : thrown) :
  readFileSync (path file) = Threw cause \/
  (exists dataBuffer,
      readFileSync (path file) = Returned dataBuffer /\
      pdf dataBuffer = Threw cause) ->
  postCompetition' now (Some file) reqBody teamIdParam
  = ([],
     Returned
       {| status := 400;
          json := MessageJson
                    Competition
                    (str "Failed to create competition")
                    (Some (str "Failed to parse PDF file: "
                           ++ messageOf cause)) |}).
Proof.
  intros H. unfold postCompetition, bind, lift, tryCatch, ret, parsePDF.
  destruct H as [->|(dataBuffer & -> & ->)]; reflexivity.
Qed.

(** The upload handler always answers and never throws; without a
    file it answers 400 "No PDF file uploaded"; it creates at most one
    competition, and only from a validated candidate whose parsed data
    is the extraction of the uploaded document and whose URL is
    "/uploads/" followed by the stored file name; and it answers 200
    only with the competition the storage returned. *)
Theorem competition_is_created_from_the_extraction
        (now : Date) (file : option File) (reqBody : Body)
        (teamIdParam : jsstring) :
  let run := postCompetition' now file reqBody teamIdParam in
  (exists answer, result run = Returned answer) /\
  (file = None ->
   run = ([], Returned
                {| status := 400;
                   json := MessageJson Competition
                                       (str "No PDF file uploaded") None |})) /\
  (trace run = [] \/
   exists upload dataBuffer text validatedData,
     file = Some upload /\
     readFileSync (path upload) = Returned dataBuffer /\
     pdf dataBuffer = Returned text /\
     schemaParse
       {| body := reqBody;
          teamId := teamIdParam;
          pdfUrl := str "/uploads/" ++ filename upload;
          parsedData := extract now text |}
     = Returned validatedData /\
     trace run = [CreateCompetition validatedData]) /\
  (forall answer,
      result run = Returned answer -> status answer = 200 ->
      exists validatedData competition,
        trace run = [CreateCompetition validatedData] /\
        createCompetition validatedData = Returned competition /\
        json answer = CompetitionJson competition).
Proof.
  intros run. subst run.
  unfold postCompetition, bind, lift, tryCatch, ret, call, parsePDF.
  destruct file as [upload|]; simpl.
  2: { repeat split; eauto. intros answer E. inversion E. discriminate. }
  destruct (readFileSync (path upload)) as [dataBuffer|cause] eqn:Hr; simpl.
  2: { repeat split; eauto; try discriminate.
       intros answer E. inversion E. discriminate. }
  destruct (pdf dataBuffer) as [text|cause] eqn:Hp; simpl.
  2: { repeat split; eauto; try discriminate.
       intros answer E. inversion E. discriminate. }
  destruct (schemaParse _) as [validatedData|cause] eqn:Hv; simpl.
  2: { repeat split; eauto; try discriminate.
       intros answer E. inversion E. discriminate. }
  destruct (createCompetition validatedData) as [competition|cause] eqn:Hc;
    simpl.
  - split; [eauto|]. split; [discriminate|]. split.
    + right. exists upload, dataBuffer, text, validatedData. auto.
    + intros answer E _. inversion E. simpl. eauto.
  - split; [eauto|]. split; [discriminate|]. split.
    + right. exists upload, dataBuffer, text, validatedData. auto.
    + intros answer E. inversion E. discriminate.
Qed.

Variable getTeam : jsstring -> outcome (option EmailService.Team).
Variable getAthletesByTeam : jsstring -> outcome (list EmailService.Athlete).
Variable getAthleteEmails :
  jsstring -> outcome (list EmailService.AthleteEmail).
Variable updateNewsletter :
  jsstring -> EmailService.updates -> outcome (option EmailService.Newsletter).
Variable sendMail : EmailService.mailOptions -> outcome unit.
Variable EMAIL_FROM EMAIL_USER : option jsstring.
Variable generateNewsletterHTML :
  EmailService.Newsletter -> EmailService.Team ->
  list EmailService.Athlete -> outcome jsstring.
Variable undefinedRead : thrown.

Local Abbreviation postNewsletterSend' :=
  (@postNewsletterSend Validated Competition
     getTeam getAthletesByTeam getAthleteEmails updateNewsletter sendMail
     EMAIL_FROM EMAIL_USER generateNewsletterHTML undefinedRead).
Local Abbreviation sendNewsletter' :=
  (EmailService.sendNewsletter
     getTeam getAthletesByTeam getAthleteEmails updateNewsletter sendMail
     EMAIL_FROM EMAIL_USER generateNewsletterHTML undefinedRead).

(** The send handler always answers, and its first call marks the
    newsletter as sent, before any mail is attempted: when the sending
    then fails it answers 500 with the service's error text although
    the sent date is already written; and it answers 200 only when the
    service returned. *)
Theorem newsletter_is_marked_sent_before_sending
        (now : Date) (idParam : jsstring) :
  let run := postNewsletterSend' now idParam in
  (exists answer, result run = Returned answer) /\
  hd_error (trace run)
  = Some (Mail Validated
               (EmailService.UpdateNewsletter
                  idParam (EmailService.SentAt now))) /\
  (forall newsletter cause,
      updateNewsletter idParam (EmailService.SentAt now)
      = Returned newsletter ->
      result (sendNewsletter' newsletter) = Threw cause ->
      result run
      = Returned
          {| status := 500;
             json := MessageJson Competition
                                 (str "Failed to send newsletter")
                                 (Some (messageOf cause)) |}) /\
  (forall answer,
      result run = Returned answer -> status answer = 200 ->
      exists newsletter,
        updateNewsletter idParam (EmailService.SentAt now)
        = Returned newsletter /\
        result (sendNewsletter' newsletter) = Returned tt).
Proof.
  intros run. subst run.
  unfold postNewsletterSend, bind, lift, tryCatch, ret, call, mailed.
  unfold Routes.sendNewsletter.
  destruct (updateNewsletter idParam (EmailService.SentAt now))
    as [newsletter|cause] eqn:Hu; simpl.
  - destruct (sendNewsletter' newsletter) as [t [[]|cause]] eqn:Hs; simpl.
    + split; [eauto|]. split; [reflexivity|]. split.
      * intros newsletter' cause E. inversion E; subst.
        rewrite Hs. discriminate.
      * intros answer _ _. exists newsletter. rewrite Hs. auto.
    + split; [eauto|]. split; [reflexivity|]. split.
      * intros newsletter' cause' E. inversion E; subst.
        rewrite Hs. simpl. intros E'. inversion E'. reflexivity.
      * intros answer E. inversion E. discriminate.
  - split; [eauto|]. split; [reflexivity|]. split.
    + intros newsletter cause' E. discriminate.
    + intros answer E. inversion E. discriminate.
Qed.
End Handlers.

Lemma unreadable_upload_is_answered_with_400_witness :
  postCompetition
    (fun _ : jsstring => @Threw unit noSuchFile)
    (fun _ : unit => Returned (@nil cu))
    (fun _ : candidate unit => Returned tt)
    (fun _ : unit => Returned tt)
    clockA (Some sampleUpload) tt (str "t1")
  = ([],
     Returned
       {| status := 400;
          json := MessageJson
                    unit
                    (str "Failed to create competition")
                    (Some (str "Failed to parse PDF file: "
                           ++ messageOf noSuchFile)) |}).
Proof.
  apply (@unreadable_upload_is_answered_with_400
           unit unit unit unit
           (fun _ : jsstring => @Threw unit noSuchFile)
           (fun _ : unit => Returned (@nil cu))
           (fun _ : candidate unit => Returned tt)
           (fun _ : unit => Returned tt)
           clockA sampleUpload tt (str "t1") noSuchFile).
  left. reflexivity.
Defined.

End RoutesProperties.
